(** * GeoNarrative Audio Weaver: playback engine, PCM decoder and generation pipeline

    A shallow embedding of [App.tsx] (playback controller and [handleGenerate])
    and of [services/gemini.ts] ([generateStoryText], [generateSpeech],
    [decodeAndPlay]), followed by the properties of the specification that can
    be stated over it.

    Conventions.
    - A JavaScript [number] is an element of a type [T] carrying the
      operations the program uses ([-], [/], [%], [>=]).  Two instances are
      given: [Qc] (exact rational arithmetic) and [float] (IEEE 754 binary64,
      which is what a JavaScript engine computes with).  Where an order or an
      equation between binary64 values is meant numerically, the values are
      read as the rationals they stand for ([float_to_Q]).
    - A thrown JavaScript value is a [Thrown]; a computation that may throw
      (or a promise that may reject) returns a [Result].
    - Host functions whose behaviour is not in the repository
      ([atob], [decodeAudioData], the [AudioContext] constructor) are
      variables of the sections that use them. *)

From Stdlib Require Import ZArith List String Bool Arith Lia Lqa.
From Stdlib Require Import Strings.Byte QArith Qcanon Qround Qpower.
From Stdlib Require Import PrimFloat FloatOps SpecFloat FloatAxioms Uint63.
Import ListNotations.

Set Implicit Arguments.
Set Warnings "-inexact-float".

Local Open Scope string_scope.
Local Open Scope list_scope.

(* ------------------------------------------------------------------ *)
(** ** Thrown values and results *)

(** What a [catch (err)] clause can receive.  [ThrownError] is any value with
    [err instanceof Error] (it has a [name] and a [message]); [ThrownString]
    is a thrown string; [ThrownObject] is any other non-null object, given by
    what [JSON.stringify] does on it ([None]: it throws); [ThrownOther] is
    everything else ([null], [undefined], numbers, ...). *)
Inductive Thrown : Type :=
| ThrownError (name message : string)
| ThrownString (s : string)
| ThrownObject (json : option string)
| ThrownOther.

Inductive Result (A : Type) : Type :=
| Ok (a : A)
| Throw (e : Thrown).

Arguments Ok {A} a.
Arguments Throw {A} e.

Definition bind {A B : Type} (r : Result A) (k : A -> Result B) : Result B :=
  match r with
  | Ok a => k a
  | Throw e => Throw e
  end.

Notation "'let*' x ':=' r 'in' k" := (bind r (fun x => k))
  (at level 10, x name, r at level 100, k at level 200).

Definition is_ok {A : Type} (r : Result A) : bool :=
  match r with Ok _ => true | Throw _ => false end.

(* ------------------------------------------------------------------ *)
(** ** JavaScript numbers *)

Class JsNumber (T : Type) : Type := {
  num_of_Z : Z -> T;
  num_sub : T -> T -> T;
  num_div : T -> T -> T;
  num_rem : T -> T -> T;      (* the [%] operator *)
  num_ge : T -> T -> bool     (* the [>=] operator *)
}.

Definition num_zero {T : Type} `{JsNumber T} : T := num_of_Z 0.

(** *** Exact arithmetic *)

Definition Qc_of_Z (z : Z) : Qc := Q2Qc (inject_Z z).

(** Truncation towards zero, as in the definition of [%]:
    [a % b = a - b * trunc (a / b)]. *)
Definition Qc_trunc (q : Qc) : Z := Z.quot (Qnum q) (QDen q).

Definition Qc_rem (a b : Qc) : Qc :=
  (a - b * Qc_of_Z (Qc_trunc (a / b)))%Qc.

Definition Qc_ge (a b : Qc) : bool := Qle_bool b a.

#[export] Instance JsNumber_Qc : JsNumber Qc := {
  num_of_Z := Qc_of_Z;
  num_sub := Qcminus;
  num_div := Qcdiv;
  num_rem := Qc_rem;
  num_ge := Qc_ge
}.

(** *** binary64 arithmetic *)

Definition float_of_Z (z : Z) : float :=
  if (z <? 0)%Z
  then PrimFloat.opp (PrimFloat.of_uint63 (Uint63.of_Z (- z)))
  else PrimFloat.of_uint63 (Uint63.of_Z z).

(** The binary64 value [m * 2^e] in canonical form, for [m] below [2^53]
    and [e] not below the least exponent: the mantissa is shifted left as far
    as the format allows. *)
Definition canonical (s : bool) (m : positive) (e : Z) : spec_float :=
  let '(m', e') := shl_align m e (fexp prec emax (Z.pos (digits2_pos m) + e)) in
  S754_finite s m' e'.

(** [a % b] on binary64 values (ECMAScript Number::remainder): NaN when [a]
    is infinite or [b] is zero, [a] when [b] is infinite or [a] is zero, and
    otherwise the exact value [a - b * trunc (a / b)], with the sign of [a].
    The exact remainder of two binary64 values is a binary64 value, so it is
    computed on the integer mantissas brought to the common exponent and
    then put in canonical form (see [float_rem_modulo] for what it gives). *)
Definition float_rem (a b : float) : float :=
  match Prim2SF a, Prim2SF b with
  | S754_nan, _ => PrimFloat.nan
  | _, S754_nan => PrimFloat.nan
  | S754_infinity _, _ => PrimFloat.nan
  | _, S754_zero _ => PrimFloat.nan
  | _, S754_infinity _ => a
  | S754_zero _, _ => a
  | S754_finite sa ma ea, S754_finite _ mb eb =>
      let e := Z.min ea eb in
      let A := (Z.pos ma * 2 ^ (ea - e))%Z in
      let B := (Z.pos mb * 2 ^ (eb - e))%Z in
      match (A mod B)%Z with
      | Z.pos r => SF2Prim (canonical sa r e)
      | _ => SF2Prim (S754_zero sa)
      end
  end.

#[export] Instance JsNumber_float : JsNumber float := {
  num_of_Z := float_of_Z;
  num_sub := PrimFloat.sub;
  num_div := PrimFloat.div;
  num_rem := float_rem;
  num_ge := fun a b => PrimFloat.leb b a
}.

(** [M * 2^e]. *)
Definition scaled (M e : Z) : Q := (inject_Z M * (2 # 1) ^ e)%Q.

(** The rational a binary64 value stands for (0 for NaN and the infinities). *)
Definition SF_to_Q (x : spec_float) : Q :=
  match x with
  | S754_finite s m e => scaled (if s then Z.neg m else Z.pos m) e
  | _ => 0%Q
  end.

Definition float_to_Q (x : float) : Q := SF_to_Q (Prim2SF x).

(** [Number.isFinite]. *)
Definition isFinite (x : float) : bool :=
  match Prim2SF x with
  | S754_zero _ | S754_finite _ _ _ => true
  | _ => false
  end.

(* ------------------------------------------------------------------ *)
(** ** Audio buffers and the decoder ([services/gemini.ts]) *)

(** The part of a Web Audio [AudioBuffer] the program reads. *)
Record AudioBuffer (T : Type) : Type := mkAudioBuffer {
  numberOfChannels : nat;
  frameLength : Z;                 (* [AudioBuffer.length], in sample-frames *)
  sampleRate : Z;
  channelData : list (list T)      (* [getChannelData (c)] for each channel *)
}.

(** [AudioBuffer.duration] is [length / sampleRate]. *)
Definition duration {T : Type} `{JsNumber T} (b : AudioBuffer T) : T :=
  num_div (num_of_Z (frameLength b)) (num_of_Z (sampleRate b)).

(** One element of an [Int16Array] view: two bytes in the byte order of the
    platform, which is little-endian wherever a browser runs (the source
    calls its decoder "16-bit little endian"), read as two's complement. *)
Definition int16_of_bytes (lo hi : byte) : Z :=
  let u := (Z.of_N (Byte.to_N lo) + 256 * Z.of_N (Byte.to_N hi))%Z in
  if (u <? 32768)%Z then u else (u - 65536)%Z.

Fixpoint int16_elements (bs : list byte) : list Z :=
  match bs with
  | lo :: hi :: rest => int16_of_bytes lo hi :: int16_elements rest
  | _ => []
  end.

(** [new Int16Array (buffer)]: a [RangeError] unless the byte length is a
    multiple of the element size (ECMAScript, TypedArray constructor). *)
Definition Int16Array_of_buffer (bs : list byte) : Result (list Z) :=
  if Nat.even (List.length bs)
  then Ok (int16_elements bs)
  else Throw (ThrownError "RangeError"
                "byte length of Int16Array should be a multiple of 2").

(** [typedArray[i] = v]: a store outside the array is ignored. *)
Fixpoint store {A : Type} (l : list A) (i : nat) (v : A) : list A :=
  match l, i with
  | [], _ => []
  | _ :: t, O => v :: t
  | x :: t, S j => x :: store t j v
  end.

Section Decoder.
Context {T : Type} `{JsNumber T}.

(** [audioContext.createBuffer (channels, frames, rate)]: a zero-filled
    buffer, or a [NotSupportedError] when an argument is zero (Web Audio API,
    BaseAudioContext.createBuffer: the length must be at least 1).  The text
    of the message is the host's; the program only displays it. *)
Definition createBuffer (channels frames : nat) (rate : Z) : Result (AudioBuffer T) :=
  if (channels =? 0)%nat || (frames =? 0)%nat || (rate <=? 0)%Z
  then Throw (ThrownError "NotSupportedError"
                "The number of frames provided (0) is less than or equal to the minimum bound (0).")
  else Ok (mkAudioBuffer channels (Z.of_nat frames) rate
             (repeat (repeat num_zero frames) channels)).

(** The loop [for (let i = 0; i < frameCount; i++) channelData[i] = dataInt16[i] / 32768.0],
    with [n] the number of iterations left.  [channelData] is a
    [Float32Array]; the quotient of a 16-bit integer by [2^15] is a binary32
    value, so the store keeps it as it is (see [exactFrame]). *)
Fixpoint pcm_loop (n i : nat) (dataInt16 : list Z) (chan : list T) : list T :=
  match n with
  | O => chan
  | S n' =>
      pcm_loop n' (S i) dataInt16
        (store chan i (num_div (num_of_Z (nth i dataInt16 0%Z)) (num_of_Z 32768)))
  end.

(** The [catch] branch of [decodeAndPlay]: manual 16-bit PCM decoding. *)
Definition pcm_fallback (bytes : list byte) : Result (AudioBuffer T) :=
  let rate := 24000%Z in
  let channels := 1%nat in
  let* dataInt16 := Int16Array_of_buffer bytes in
  let frameCount := List.length dataInt16 in
  let* audioBuffer := createBuffer channels frameCount rate in
  let chan := nth 0 (channelData audioBuffer) [] in
  Ok (mkAudioBuffer (numberOfChannels audioBuffer) (frameLength audioBuffer)
        (sampleRate audioBuffer)
        (store (channelData audioBuffer) 0 (pcm_loop frameCount 0 dataInt16 chan))).

(** Host functions: [atob] ([None]: the string is not base64, an
    [InvalidCharacterError]) and [AudioContext.decodeAudioData] ([None]: the
    promise rejects, the payload is not a container the browser knows). *)
Variable atob : string -> option (list byte).
Variable decodeAudioData : list byte -> option (AudioBuffer T).

(** [decodeAndPlay] from the byte array on. *)
Definition decode_bytes (bytes : list byte) : Result (AudioBuffer T) :=
  match decodeAudioData bytes with
  | Some b => Ok b
  | None => pcm_fallback bytes
  end.

Definition decodeAndPlay (base64Data : string) : Result (AudioBuffer T) :=
  match atob base64Data with
  | None => Throw (ThrownError "InvalidCharacterError"
                     "The string to be decoded is not correctly encoded.")
  | Some bytes => decode_bytes bytes
  end.

End Decoder.

(* ------------------------------------------------------------------ *)
(** ** Types of the application ([types.ts]) *)

Inductive Vibe : Type :=
| MYSTERIOUS | WHIMSICAL | HISTORICAL | FUTURISTIC | REFLECTIVE | HORROR | ACTION.

Inductive TimeOfDay : Type := MORNING | AFTERNOON | EVENING | NIGHT.

Record Coordinates (T : Type) : Type := mkCoordinates {
  latitude : T;
  longitude : T
}.

(** [title] and [uri] are copied from the response and are [undefined] there
    when the service leaves them out. *)
Record GroundingSource : Type := mkGroundingSource {
  title : option string;
  uri : option string
}.

Record StoryResponse : Type := mkStoryResponse {
  text : string;
  groundingSources : list GroundingSource
}.

Record AppState (T : Type) : Type := mkAppState {
  coords : option (Coordinates T);
  timeOfDay : TimeOfDay;
  selectedVibe : Vibe;
  isGenerating : bool;
  storyText : option string;
  audioUrl : option string;
  stateGroundingSources : list GroundingSource;
  error : option string;
  statusMessage : string
}.

(* ------------------------------------------------------------------ *)
(** ** The remote service ([services/gemini.ts]) *)

(** The fields of a [generateContent] response the program reads. *)
Record GroundingChunkRef : Type := mkChunkRef {
  refTitle : option string;
  refUri : option string
}.

Record GroundingChunk : Type := mkGroundingChunk {
  web : option GroundingChunkRef;
  maps : option GroundingChunkRef
}.

Record Candidate : Type := mkCandidate {
  (* [groundingMetadata?.groundingChunks] *)
  groundingChunks : option (list GroundingChunk);
  (* [content?.parts?.[0]?.inlineData?.data] *)
  inlineData : option string
}.

Record GenerateContentResponse : Type := mkResponse {
  responseText : option string;
  candidates : option (list Candidate)
}.

(** [x || d] on an optional string: [undefined] and the empty string are falsy. *)
Definition or_else (x : option string) (d : string) : string :=
  match x with
  | Some s => if String.eqb s "" then d else s
  | None => d
  end.

Definition fallbackStory : string :=
  "The signal is weak... I cannot weave a story right now.".

(** [response.candidates?.[0]]. *)
Definition firstCandidate (response : GenerateContentResponse) : option Candidate :=
  match candidates response with
  | Some (c :: _) => Some c
  | _ => None
  end.

(** The body of [chunks.forEach]: what one chunk appends to [groundingSources]. *)
Definition sourcesOfChunk (chunk : GroundingChunk) : list GroundingSource :=
  match web chunk with
  | Some w => [mkGroundingSource (refTitle w) (refUri w)]
  | None =>
      match maps chunk with
      | Some m => [mkGroundingSource (Some (or_else (refTitle m) "Map Location")) (refUri m)]
      | None => []
      end
  end.

Definition extractGroundingSources (response : GenerateContentResponse) : list GroundingSource :=
  match firstCandidate response with
  | Some c =>
      match groundingChunks c with
      | Some chunks => flat_map sourcesOfChunk chunks
      | None => []
      end
  | None => []
  end.

(** [generateStoryText] once [ai.models.generateContent] has settled with
    [outcome]: the [try] block after the [await], and the [catch]. *)
Definition storyOfOutcome (outcome : Result GenerateContentResponse) : Result StoryResponse :=
  match outcome with
  | Ok response =>
      Ok (mkStoryResponse (or_else (responseText response) fallbackStory)
            (extractGroundingSources response))
  | Throw _ =>
      Throw (ThrownError "Error"
        "Failed to weave the narrative thread. The connection to the neural net was interrupted.")
  end.

(** [generateSpeech] once [generateContent] has settled.  The [throw] for a
    missing payload is inside the [try], so it is replaced by the [catch]. *)
Definition speechOfOutcome (outcome : Result GenerateContentResponse) : Result string :=
  let inner :=
    let* response := outcome in
    match firstCandidate response with
    | Some c =>
        match inlineData c with
        | Some base64Audio =>
            if String.eqb base64Audio ""
            then Throw (ThrownError "Error" "No audio data received from the ether.")
            else Ok base64Audio
        | None => Throw (ThrownError "Error" "No audio data received from the ether.")
        end
    | None => Throw (ThrownError "Error" "No audio data received from the ether.")
    end in
  match inner with
  | Ok base64Audio => Ok base64Audio
  | Throw _ => Throw (ThrownError "Error" "Voice synthesis module failed.")
  end.

(** The calls a generation cycle issues and then awaits. *)
Inductive Request (T : Type) : Type :=
| ReqText (c : Coordinates T) (time : TimeOfDay) (vibe : Vibe)   (* generateStoryText *)
| ReqSpeech (narrative : string)                                 (* generateSpeech *)
| ReqDecode (base64Audio : string).                              (* decodeAndPlay *)

Arguments ReqSpeech {T} narrative.
Arguments ReqDecode {T} base64Audio.

Definition is_network_call {T : Type} (r : Request T) : bool :=
  match r with
  | ReqText _ _ _ => true
  | ReqSpeech _ => true
  | ReqDecode _ => false
  end.



(* ------------------------------------------------------------------ *)
(** ** The state of the component ([App.tsx]) *)

Inductive ContextState : Type := CtxSuspended | CtxRunning.

Record AudioContext : Type := mkAudioContext {
  ctxSampleRate : Z;
  ctxState : ContextState
}.

(** An [AudioBufferSourceNode] of the audio graph: the buffer it plays, the
    offset it was started at, and whether it is currently producing output
    (started, and neither stopped nor finished). *)
Record SourceNode (T : Type) : Type := mkSourceNode {
  nodeBuffer : AudioBuffer T;
  nodeOffset : T;
  nodeActive : bool
}.

(** Where a suspended [handleGenerate] invocation is waiting. *)
Inductive Pending : Type :=
| AwaitText
| AwaitSpeech
| AwaitDecode (base64Audio : string)
| Finished.

(** The trace of effects, oldest first: an observer's record of the calls of
    [stopAudio], of the assignment that drops the buffer, and of the calls
    the cycle awaits.  The program does not read it. *)
Inductive Event (T : Type) : Type :=
| EvStopAudio
| EvDiscardBuffer
| EvRequest (r : Request T).

Arguments EvStopAudio {T}.
Arguments EvDiscardBuffer {T}.

(** The React state ([state], [isPlaying]), the refs, the source nodes the
    audio context holds (a node is named by its position), the suspended
    [handleGenerate] invocations (named by their position, in the order they
    were started) and the trace. *)
Record World (T : Type) : Type := mkWorld {
  state : AppState T;
  isPlaying : bool;
  audioContextRef : option AudioContext;
  audioSourceRef : option nat;
  audioBufferRef : option (AudioBuffer T);
  startTimeRef : T;
  pausedAtRef : T;
  nodes : list (SourceNode T);
  inflight : list Pending;
  log : list (Event T)
}.

Section Component.
Context {T : Type} `{JsNumber T}.

Definition set_state (a : AppState T) (w : World T) : World T :=
  mkWorld a (isPlaying w) (audioContextRef w) (audioSourceRef w) (audioBufferRef w)
    (startTimeRef w) (pausedAtRef w) (nodes w) (inflight w) (log w).

Definition set_isPlaying (b : bool) (w : World T) : World T :=
  mkWorld (state w) b (audioContextRef w) (audioSourceRef w) (audioBufferRef w)
    (startTimeRef w) (pausedAtRef w) (nodes w) (inflight w) (log w).

Definition set_audioContextRef (c : option AudioContext) (w : World T) : World T :=
  mkWorld (state w) (isPlaying w) c (audioSourceRef w) (audioBufferRef w)
    (startTimeRef w) (pausedAtRef w) (nodes w) (inflight w) (log w).

Definition set_audioSourceRef (s : option nat) (w : World T) : World T :=
  mkWorld (state w) (isPlaying w) (audioContextRef w) s (audioBufferRef w)
    (startTimeRef w) (pausedAtRef w) (nodes w) (inflight w) (log w).

Definition set_audioBufferRef (b : option (AudioBuffer T)) (w : World T) : World T :=
  mkWorld (state w) (isPlaying w) (audioContextRef w) (audioSourceRef w) b
    (startTimeRef w) (pausedAtRef w) (nodes w) (inflight w) (log w).

Definition set_startTimeRef (t : T) (w : World T) : World T :=
  mkWorld (state w) (isPlaying w) (audioContextRef w) (audioSourceRef w) (audioBufferRef w)
    t (pausedAtRef w) (nodes w) (inflight w) (log w).

Definition set_pausedAtRef (t : T) (w : World T) : World T :=
  mkWorld (state w) (isPlaying w) (audioContextRef w) (audioSourceRef w) (audioBufferRef w)
    (startTimeRef w) t (nodes w) (inflight w) (log w).

Definition set_nodes (ns : list (SourceNode T)) (w : World T) : World T :=
  mkWorld (state w) (isPlaying w) (audioContextRef w) (audioSourceRef w) (audioBufferRef w)
    (startTimeRef w) (pausedAtRef w) ns (inflight w) (log w).

Definition set_inflight (p : list Pending) (w : World T) : World T :=
  mkWorld (state w) (isPlaying w) (audioContextRef w) (audioSourceRef w) (audioBufferRef w)
    (startTimeRef w) (pausedAtRef w) (nodes w) p (log w).

Definition emit (e : Event T) (w : World T) : World T :=
  mkWorld (state w) (isPlaying w) (audioContextRef w) (audioSourceRef w) (audioBufferRef w)
    (startTimeRef w) (pausedAtRef w) (nodes w) (inflight w) (log w ++ [e]).

(** [setState (prev => f prev)]. *)
Definition setState (f : AppState T -> AppState T) (w : World T) : World T :=
  set_state (f (state w)) w.

(** *** The audio graph *)

(** [source.stop ()] on node [id]. *)
Definition stopNode (id : nat) (ns : list (SourceNode T)) : list (SourceNode T) :=
  match nth_error ns id with
  | Some n => store ns id (mkSourceNode (nodeBuffer n) (nodeOffset n) false)
  | None => ns
  end.

(** The number of outputs that are playing. *)
Definition activeOutputs (w : World T) : nat :=
  List.length (filter (@nodeActive T) (nodes w)).

(** *** Audio logic *)

(** [new AudioContext ({ sampleRate: 24000 })], which the host may refuse. *)
Variable newAudioContext : Result AudioContext.

(** [initAudioContext].  On a suspended context it calls [resume ()]: the
    call returns a promise, which the code drops, and [state] is still
    'suspended' when the call returns; the context starts running when the
    host settles the promise, if it does (Web Audio API, AudioContext.resume).
    So the call changes nothing the handlers read. *)
Definition initAudioContext (w : World T) : Result (World T) :=
  let* w1 :=
    match audioContextRef w with
    | None => let* ctx := newAudioContext in Ok (set_audioContextRef (Some ctx) w)
    | Some _ => Ok w
    end in
  match audioContextRef w1 with
  | Some ctx =>
      match ctxState ctx with
      | CtxSuspended => Ok w1   (* [resume ()] *)
      | CtxRunning => Ok w1
      end
  | None => Ok w1
  end.

(** [playAudio], with [now] the value of [ctx.currentTime]. *)
Definition playAudio (now : T) (w : World T) : Result (World T) :=
  let* w1 := initAudioContext w in
  match audioContextRef w1, audioBufferRef w1 with
  | Some ctx, Some buffer =>
      let source := List.length (nodes w1) in
      let offset := num_rem (pausedAtRef w1) (duration buffer) in
      let w2 := set_nodes (nodes w1 ++ [mkSourceNode buffer offset true]) w1 in
      let w3 := set_startTimeRef (num_sub now offset) w2 in
      let w4 := set_audioSourceRef (Some source) w3 in
      Ok (set_isPlaying true w4)
  | _, _ => Ok w1
  end.

(** The [onended] handler that [playAudio] attaches to [source]: it closes
    over the buffer of that call and reads [startTimeRef] when it runs. *)
Definition onended (buffer : AudioBuffer T) (now : T) (w : World T) : World T :=
  if num_ge (num_sub now (startTimeRef w)) (duration buffer)
  then set_pausedAtRef num_zero (set_isPlaying false w)
  else w.

(** The [ended] event of node [id]: the node no longer produces output and
    its handler runs. *)
Definition sourceEnded (id : nat) (now : T) (w : World T) : World T :=
  match nth_error (nodes w) id with
  | Some n => onended (nodeBuffer n) now (set_nodes (stopNode id (nodes w)) w)
  | None => w
  end.

Definition pauseAudio (now : T) (w : World T) : World T :=
  match audioSourceRef w, audioContextRef w with
  | Some source, Some ctx =>
      let w1 := set_nodes (stopNode source (nodes w)) w in
      let w2 := set_pausedAtRef (num_sub now (startTimeRef w1)) w1 in
      let w3 := set_audioSourceRef None w2 in
      set_isPlaying false w3
  | _, _ => w
  end.

Definition stopAudio (w : World T) : World T :=
  let w0 := emit EvStopAudio w in
  let w1 :=
    match audioSourceRef w0 with
    | Some source => set_audioSourceRef None (set_nodes (stopNode source (nodes w0)) w0)
    | None => w0
    end in
  set_isPlaying false (set_pausedAtRef num_zero w1).

(** *** Core generation logic *)

Variable atob : string -> option (list byte).
Variable decodeAudioData : list byte -> option (AudioBuffer T).

(** The five [setState] updates of [handleGenerate]. *)
Definition startGenerating (a : AppState T) : AppState T :=
  mkAppState (coords a) (timeOfDay a) (selectedVibe a) true None (audioUrl a) [] None
    (statusMessage a).

Definition withStatus (msg : string) (a : AppState T) : AppState T :=
  mkAppState (coords a) (timeOfDay a) (selectedVibe a) (isGenerating a) (storyText a)
    (audioUrl a) (stateGroundingSources a) (error a) msg.

Definition withStory (storyResponse : StoryResponse) (a : AppState T) : AppState T :=
  mkAppState (coords a) (timeOfDay a) (selectedVibe a) (isGenerating a)
    (Some (text storyResponse)) (audioUrl a) (groundingSources storyResponse) (error a)
    "Synthesizing Voice...".

Definition narrativeReady (a : AppState T) : AppState T :=
  mkAppState (coords a) (timeOfDay a) (selectedVibe a) false (storyText a)
    (audioUrl a) (stateGroundingSources a) (error a) "Narrative Ready".

Definition aborted (errorMessage : string) (a : AppState T) : AppState T :=
  mkAppState (coords a) (timeOfDay a) (selectedVibe a) false (storyText a)
    (audioUrl a) (stateGroundingSources a) (Some errorMessage) "Process Aborted".

(** The message the [catch] clause of [handleGenerate] derives from [err]. *)
Definition errorMessageOf (err : Thrown) : string :=
  match err with
  | ThrownError _ message => message
  | ThrownString s => s
  | ThrownObject (Some json) => json
  | ThrownObject None => "An unspecified error occurred."
  | ThrownOther => "Unknown system failure"
  end.

Definition set_pending (k : nat) (p : Pending) (w : World T) : World T :=
  set_inflight (store (inflight w) k p) w.

(** The [catch] clause, for invocation [k]. *)
Definition catchHandler (k : nat) (err : Thrown) (w : World T) : World T :=
  setState (aborted (errorMessageOf err)) (set_pending k Finished w).

(** [handleGenerate] up to its first [await]. *)
Definition handleGenerate (w : World T) : World T :=
  match coords (state w) with
  | None => w
  | Some c =>
      let w1 := stopAudio w in
      let w2 := emit EvDiscardBuffer (set_audioBufferRef None w1) in
      let w3 := setState startGenerating w2 in
      let w4 := setState (withStatus "Scanning Environment...") w3 in
      let w5 := emit (EvRequest (ReqText c (timeOfDay (state w)) (selectedVibe (state w)))) w4 in
      set_inflight (inflight w5 ++ [AwaitText]) w5
  end.

(** Invocation [k] resumes after [await generateStoryText (...)]. *)
Definition textSettled (k : nat) (outcome : Result GenerateContentResponse)
  (w : World T) : World T :=
  match nth_error (inflight w) k with
  | Some AwaitText =>
      match storyOfOutcome outcome with
      | Ok storyResponse =>
          let w1 := setState (withStory storyResponse) w in
          let w2 := emit (EvRequest (ReqSpeech (text storyResponse))) w1 in
          set_pending k AwaitSpeech w2
      | Throw err => catchHandler k err w
      end
  | _ => w
  end.

(** Invocation [k] resumes after [await generateSpeech (...)], up to the
    call of [decodeAndPlay]. *)
Definition speechSettled (k : nat) (outcome : Result GenerateContentResponse)
  (w : World T) : World T :=
  match nth_error (inflight w) k with
  | Some AwaitSpeech =>
      match speechOfOutcome outcome with
      | Ok base64Audio =>
          match initAudioContext w with
          | Ok w1 =>
              match audioContextRef w1 with
              | Some _ =>
                  set_pending k (AwaitDecode base64Audio)
                    (emit (EvRequest (ReqDecode base64Audio)) w1)
              | None => catchHandler k (ThrownError "Error" "Audio system failure") w1
              end
          | Throw err => catchHandler k err w
          end
      | Throw err => catchHandler k err w
      end
  | _ => w
  end.

(** Invocation [k] resumes after [await decodeAndPlay (...)]. *)
Definition decodeSettled (k : nat) (now : T) (w : World T) : World T :=
  match nth_error (inflight w) k with
  | Some (AwaitDecode base64Audio) =>
      match decodeAndPlay atob decodeAudioData base64Audio with
      | Ok buffer =>
          let w1 := set_audioBufferRef (Some buffer) w in
          let w2 := setState narrativeReady w1 in
          match playAudio now w2 with
          | Ok w3 => set_pending k Finished w3
          | Throw err => catchHandler k err w2
          end
      | Throw err => catchHandler k err w
      end
  | _ => w
  end.

(** The other [setState] updates of the component: the two callbacks of
    [getCurrentPosition] and [onSelect] of the vibe selector. *)
Definition positionFound (c : Coordinates T) (a : AppState T) : AppState T :=
  mkAppState (Some c) (timeOfDay a) (selectedVibe a) (isGenerating a) (storyText a)
    (audioUrl a) (stateGroundingSources a) None "Ready to Weave".

Definition positionDenied (a : AppState T) : AppState T :=
  mkAppState (coords a) (timeOfDay a) (selectedVibe a) (isGenerating a) (storyText a)
    (audioUrl a) (stateGroundingSources a)
    (Some "Access to location denied. Please enable GPS.") "Location Signal Lost".

Definition withVibe (v : Vibe) (a : AppState T) : AppState T :=
  mkAppState (coords a) (timeOfDay a) v (isGenerating a) (storyText a)
    (audioUrl a) (stateGroundingSources a) (error a) (statusMessage a).

(** *** The component as a transition system *)

Inductive Input : Type :=
| PositionFound (c : Coordinates T)
| PositionDenied
| SelectVibe (v : Vibe)
| CallGenerate
| TextSettled (k : nat) (outcome : Result GenerateContentResponse)
| SpeechSettled (k : nat) (outcome : Result GenerateContentResponse)
| DecodeSettled (k : nat) (now : T)
| CallPlay (now : T)
| CallPause (now : T)
| SourceEnded (id : nat) (now : T).

Definition step (w : World T) (i : Input) : World T :=
  match i with
  | PositionFound c => setState (positionFound c) w
  | PositionDenied => setState positionDenied w
  | SelectVibe v => setState (withVibe v) w
  | CallGenerate => handleGenerate w
  | TextSettled k outcome => textSettled k outcome w
  | SpeechSettled k outcome => speechSettled k outcome w
  | DecodeSettled k now => decodeSettled k now w
  | CallPlay now => match playAudio now w with Ok w' => w' | Throw _ => w end
  | CallPause now => pauseAudio now w
  | SourceEnded id now => sourceEnded id now w
  end.

Definition run (w : World T) (inputs : list Input) : World T :=
  fold_left step inputs w.

(** One whole generation cycle started from [w], its three awaited calls
    settling in turn. *)
Definition runCycle (textOutcome speechOutcome : Result GenerateContentResponse)
  (now : T) (w : World T) : World T :=
  let k := List.length (inflight w) in
  run w [CallGenerate; TextSettled k textOutcome; SpeechSettled k speechOutcome;
         DecodeSettled k now].

(** *** What the rendered controls allow *)

Definition isSome {A : Type} (o : option A) : bool :=
  match o with Some _ => true | None => false end.

(** The main button is rendered when there is no buffer or a cycle is running
    and is [disabled] when [isGenerating] or there are no coordinates; the
    regenerate button is rendered otherwise. *)
Definition generateEnabled (w : World T) : bool :=
  if negb (isSome (audioBufferRef w)) || isGenerating (state w)
  then negb (isGenerating (state w) || negb (isSome (coords (state w))))
  else true.

(** The play/pause button, [onClick={isPlaying ? pauseAudio : playAudio}]. *)
Definition transportVisible (w : World T) : bool :=
  negb (negb (isSome (audioBufferRef w)) || isGenerating (state w)).

(** The vibe selector is [disabled] while a cycle is running. *)
Definition allowed (w : World T) (i : Input) : bool :=
  match i with
  | SelectVibe _ => negb (isGenerating (state w))
  | CallGenerate => generateEnabled w
  | CallPlay _ => transportVisible w && negb (isPlaying w)
  | CallPause _ => transportVisible w && isPlaying w
  | _ => true
  end.

(** A run in which the handlers are only reached through the controls. *)
Definition uiStep (w : World T) (i : Input) : World T :=
  if allowed w i then step w i else w.

Definition uiRun (w : World T) (inputs : list Input) : World T :=
  fold_left uiStep inputs w.

Definition waiting (p : Pending) : bool :=
  match p with Finished => false | _ => true end.

(** The number of [handleGenerate] invocations that have not returned. *)
Definition cyclesInFlight (w : World T) : nat :=
  List.length (filter waiting (inflight w)).

End Component.

(* ------------------------------------------------------------------ *)
(** ** Vocabulary of the properties *)

(** [payload] is the 16-bit little-endian two's-complement encoding of the
    samples [vs]: two bytes per sample, low byte first. *)
Inductive pcm16le : list byte -> list Z -> Prop :=
| pcm16le_nil : pcm16le [] []
| pcm16le_cons (lo hi : byte) (v : Z) (bs : list byte) (vs : list Z) :
    (-32768 <= v < 32768)%Z ->
    (Z.of_N (Byte.to_N lo) + 256 * Z.of_N (Byte.to_N hi) = v mod 65536)%Z ->
    pcm16le bs vs ->
    pcm16le (lo :: hi :: bs) (v :: vs).

(** [v / 32768.0] as the program computes it. *)
Definition normalized {T : Type} `{JsNumber T} (v : Z) : T :=
  num_div (num_of_Z v) (num_of_Z 32768).

(** A host in which the container decoder rejects every payload. *)
Definition rejectAll {T : Type} (bytes : list byte) : option (AudioBuffer T) := None.

(** No node of the graph produces output. *)
Definition allSilent {T : Type} (ns : list (SourceNode T)) : Prop :=
  forall id n, nth_error ns id = Some n -> nodeActive n = false.

(** Every output that is playing is the one [audioSourceRef] holds. *)
Definition onlyTrackedActive {T : Type} (w : World T) : Prop :=
  forall id n, nth_error (nodes w) id = Some n -> nodeActive n = true ->
    audioSourceRef w = Some id.

(** How a generation cycle that failed leaves the component: the in-flight
    flag is cleared, the reason is recorded, invocation [k] has returned, and
    there is no buffer and no playback. *)
Definition abortedWith {T : Type} (k : nat) (reason : string) (w : World T) : Prop :=
  isGenerating (state w) = false /\
  error (state w) = Some reason /\
  statusMessage (state w) = "Process Aborted" /\
  nth_error (inflight w) k = Some Finished /\
  audioBufferRef w = None /\
  isPlaying w = false.

(** At most one [handleGenerate] invocation is waiting, and none is when
    [isGenerating] is false. *)
Definition gateInvariant {T : Type} (w : World T) : Prop :=
  (cyclesInFlight w <= 1)%nat /\
  (isGenerating (state w) = false -> cyclesInFlight w = 0%nat).

(** [v / 32768.0] computed in binary64 is the exact quotient of [v] by
    [2^15] and has at most 24 significant bits, so that storing it in the
    [Float32Array] of the channel does not round. *)
Definition exactFrame (v : Z) : bool :=
  match Prim2SF (@normalized float _ v) with
  | S754_zero _ => (v =? 0)%Z
  | S754_finite s m e =>
      Bool.eqb s (v <? 0)%Z &&
      (Z.pos m * 2 ^ (e + 100) =? Z.abs v * 2 ^ 85)%Z &&
      (Z.pos m mod 2 ^ 29 =? 0)%Z
  | _ => false
  end.

(** [f] holds on the [n] integers from [v] on. *)
Fixpoint holdsFrom (f : Z -> bool) (n : nat) (v : Z) : bool :=
  match n with
  | O => true
  | S n' => f v && holdsFrom f n' (v + 1)
  end.

(** A buffer is only ever loaded, and a decode only ever awaited, with an
    audio context in place. *)
Definition contextInvariant {T : Type} (w : World T) : Prop :=
  (isSome (audioBufferRef w) = true -> isSome (audioContextRef w) = true) /\
  (forall k base64Audio,
     nth_error (inflight w) k = Some (AwaitDecode base64Audio) ->
     isSome (audioContextRef w) = true).

(** The reading of [ctx.currentTime] an input carries. *)
Definition clockOf {T : Type} (i : @Input T) : option T :=
  match i with
  | DecodeSettled _ now => Some now
  | CallPlay now => Some now
  | CallPause now => Some now
  | SourceEnded _ now => Some now
  | _ => None
  end.

(** The clock readings of [inputs] do not decrease, starting from [t]. *)
Fixpoint clockMonotone (t : Qc) (inputs : list (@Input Qc)) : Prop :=
  match inputs with
  | [] => True
  | i :: rest =>
      match clockOf i with
      | Some t' => (t <= t')%Qc /\ clockMonotone t' rest
      | None => clockMonotone t rest
      end
  end.

(** The paused offset is not negative and the start reference is not after
    the clock reading [t]. *)
Definition timeInvariant (t : Qc) (w : World Qc) : Prop :=
  (0 <= pausedAtRef w)%Qc /\ (startTimeRef w <= t)%Qc.

(* ------------------------------------------------------------------ *)
(** ** The effects run on mount ([App.tsx]) *)

(** The bucket the first effect derives from [new Date ().getHours ()]. *)
Definition timeOfDayOfHour (hour : Z) : TimeOfDay :=
  if (5 <=? hour)%Z && (hour <? 12)%Z then MORNING
  else if (12 <=? hour)%Z && (hour <? 17)%Z then AFTERNOON
  else if (17 <=? hour)%Z && (hour <? 21)%Z then EVENING
  else NIGHT.





(** A frame lies in [[-1, 1)]. *)
Definition inUnitRange (x : Qc) : Prop :=
  (Qc_of_Z (-1) <= x)%Qc /\ (x < Qc_of_Z 1)%Qc.

(** While [isPlaying] is set, a source is tracked and a context exists. *)
Definition playingInvariant {T : Type} (w : World T) : Prop :=
  isPlaying w = true ->
  isSome (audioSourceRef w) = true /\ isSome (audioContextRef w) = true.

(** While [isGenerating] is set, no buffer is loaded and [isPlaying] is off. *)
Definition generatingInvariant {T : Type} (w : World T) : Prop :=
  isGenerating (state w) = true -> audioBufferRef w = None /\ isPlaying w = false.

(** No request in the trace carries an empty narrative or an empty payload. *)
Definition requestsWellFormed {T : Type} (l : list (Event T)) : Prop :=
  (forall narrative, In (EvRequest (ReqSpeech narrative)) l -> narrative <> "") /\
  (forall base64Audio, In (EvRequest (ReqDecode base64Audio)) l -> base64Audio <> "").

(** The success callback of [getCurrentPosition]. *)
Definition isPositionFound {T : Type} (i : @Input T) : bool :=
  match i with
  | PositionFound _ => true
  | _ => false
  end.

(** [isGenerating] is set exactly while one invocation is waiting. *)
Definition busyInvariant {T : Type} (w : World T) : Prop :=
  cyclesInFlight w = (if isGenerating (state w) then 1 else 0)%nat.

(** [onSelect] of the vibe selector. *)
Definition isSelectVibe {T : Type} (i : @Input T) : bool :=
  match i with
  | SelectVibe _ => true
  | _ => false
  end.

(* ------------------------------------------------------------------ *)
(** ** Sample inputs *)

(** The initial value of [useState<AppState>]. *)
Definition initialAppState {T : Type} : AppState T :=
  mkAppState None MORNING MYSTERIOUS false None None [] None "Initializing Systems...".

Definition initialWorld {T : Type} `{JsNumber T} : World T :=
  mkWorld initialAppState false None None None num_zero num_zero [] [] [].

(** One millisecond of silence at 24000 Hz. *)
Definition sampleBuffer {T : Type} `{JsNumber T} : AudioBuffer T :=
  mkAudioBuffer 1 24 24000 [repeat num_zero 24].

Definition sampleContext : AudioContext := mkAudioContext 24000 CtxRunning.

(** [DEFAULT_COORDS] of [constants.ts]. *)
Definition DEFAULT_COORDS {T : Type} `{JsNumber T} : Coordinates T :=
  mkCoordinates (num_div (num_of_Z 377749) (num_of_Z 10000))
    (num_div (num_of_Z (-1224194)) (num_of_Z 10000)).

(** The component once the position is known. *)
Definition readyWorld {T : Type} `{JsNumber T} : World T :=
  mkWorld
    (mkAppState (Some DEFAULT_COORDS) MORNING MYSTERIOUS false None None [] None
       "Ready to Weave")
    false None None None num_zero num_zero [] [] [].

(** The component with a decoded buffer, not playing, paused at [pausedAt]. *)
Definition loadedWorld {T : Type} `{JsNumber T} (pausedAt : T) : World T :=
  mkWorld
    (mkAppState (Some DEFAULT_COORDS) MORNING MYSTERIOUS false (Some "A quiet street.")
       None [] None "Narrative Ready")
    false (Some sampleContext) None (Some sampleBuffer)
    num_zero pausedAt [] [] [].

Definition firstResponse : GenerateContentResponse :=
  mkResponse (Some "first narrative") None.

Definition secondResponse : GenerateContentResponse :=
  mkResponse (Some "second narrative") None.

Definition speechResponse (data : string) : GenerateContentResponse :=
  mkResponse None (Some [mkCandidate None (Some data)]).

Definition serviceDown : Result GenerateContentResponse :=
  Throw (ThrownError "ApiError" "503 Service Unavailable").

(** A host whose [atob] knows two strings: the samples [0] and [32767], and
    three bytes that are no whole number of samples. *)
Definition sampleAtob (base64Data : string) : option (list byte) :=
  if String.eqb base64Data "AAD/fw==" then Some [x00; x00; xff; x7f]
  else if String.eqb base64Data "AQID" then Some [x01; x02; x03]
  else None.

(** [playAudio] then [pauseAudio] at the same engine time, from the loaded
    component paused at [pausedAt]. *)
Definition playThenPause {T : Type} `{JsNumber T} (pausedAt now : T) : World T :=
  run (Ok sampleContext) sampleAtob (@rejectAll T) (loadedWorld pausedAt)
    [CallPlay now; CallPause now].

(** The loaded component after one call of [playAudio]. *)
Definition playingWorld {T : Type} `{JsNumber T} : World T :=
  run (Ok sampleContext) sampleAtob (@rejectAll T) (loadedWorld num_zero)
    [CallPlay num_zero].

(** [handleGenerate] called twice before anything settles, then the text of
    the second invocation arrives. *)
Definition overlappingCycles {T : Type} `{JsNumber T} : World T :=
  run (Ok sampleContext) sampleAtob (@rejectAll T) readyWorld
    [CallGenerate; CallGenerate; TextSettled 1 (Ok secondResponse)].

(** A text response without text and with one citation of each kind. *)
Definition silentResponse : GenerateContentResponse :=
  mkResponse (Some "")
    (Some [mkCandidate
             (Some [mkGroundingChunk (Some (mkChunkRef (Some "City Hall") (Some "https://example.org/hall"))) None;
                    mkGroundingChunk None (Some (mkChunkRef None (Some "https://maps.example.org/1")));
                    mkGroundingChunk None None])
             None]).

(** Two calls of [playAudio] in a row from the loaded component. *)
Definition playTwice {T : Type} `{JsNumber T} (now1 now2 : T) : World T :=
  run (Ok sampleContext) sampleAtob (@rejectAll T) (loadedWorld num_zero)
    [CallPlay now1; CallPlay now2].

(* ================================================================== *)
(** * Properties *)

(* ------------------------------------------------------------------ *)
(** ** Typed-array stores *)

Lemma store_length (A : Type) (l : list A) (i : nat) (v : A) :
  List.length (store l i v) = List.length l.
Proof.
  revert i; induction l as [|x t IH]; intros [|j]; simpl; auto.
Qed.

Lemma store_firstn_snoc (A : Type) (l : list A) (i : nat) (v : A) :
  (i < List.length l)%nat ->
  firstn (S i) (store l i v) = firstn i l ++ [v].
Proof.
  revert i; induction l as [|x t IH]; intros [|j] Hlt; simpl in *; try lia.
  - reflexivity.
  - f_equal. apply IH. lia.
Qed.

Lemma skipn_nth_cons (l : list Z) (i : nat) :
  (i < List.length l)%nat ->
  skipn i l = nth i l 0%Z :: skipn (S i) l.
Proof.
  revert i; induction l as [|x t IH]; intros [|j] Hlt; simpl in *; try lia.
  - reflexivity.
  - apply IH. lia.
Qed.

(* ------------------------------------------------------------------ *)
(** ** The decoder *)

Section DecoderFacts.
Context {T : Type} `{JsNumber T}.

(** The loop writes [dataInt16[j] / 32768.0] at every index from [i] on and
    leaves the frames before [i] as they are. *)
Lemma pcm_loop_from (n i : nat) (dataInt16 : list Z) (chan : list T) :
  List.length chan = List.length dataInt16 ->
  (i + n = List.length dataInt16)%nat ->
  pcm_loop n i dataInt16 chan = firstn i chan ++ map normalized (skipn i dataInt16).
Proof.
  revert i chan; induction n as [|n IH]; intros i chan Hlen Hin; simpl.
  - replace i with (List.length chan) by lia.
    rewrite firstn_all. rewrite Hlen, skipn_all. simpl. now rewrite app_nil_r.
  - rewrite IH; [| now rewrite store_length | lia].
    rewrite store_firstn_snoc by lia.
    rewrite (@skipn_nth_cons dataInt16 i) by lia.
    simpl. now rewrite <- app_assoc.
Qed.

Lemma pcm_loop_all (dataInt16 : list Z) :
  pcm_loop (List.length dataInt16) 0 dataInt16 (repeat num_zero (List.length dataInt16))
  = map normalized dataInt16.
Proof.
  rewrite pcm_loop_from; simpl; auto.
  now rewrite repeat_length.
Qed.

Lemma int16_of_bytes_encoded (lo hi : byte) (v : Z) :
  (-32768 <= v < 32768)%Z ->
  (Z.of_N (Byte.to_N lo) + 256 * Z.of_N (Byte.to_N hi) = v mod 65536)%Z ->
  int16_of_bytes lo hi = v.
Proof.
  intros Hr He. unfold int16_of_bytes. rewrite He.
  destruct (Z.ltb_spec (v mod 65536) 32768) as [Hlt|Hge];
    Z.div_mod_to_equations; lia.
Qed.

Lemma pcm16le_elements (payload : list byte) (vs : list Z) :
  pcm16le payload vs -> int16_elements payload = vs.
Proof.
  induction 1 as [|lo hi v bs vs Hr He _ IH]; simpl.
  - reflexivity.
  - now rewrite (int16_of_bytes_encoded lo hi Hr He), IH.
Qed.

Lemma pcm16le_length (payload : list byte) (vs : list Z) :
  pcm16le payload vs -> List.length payload = (2 * List.length vs)%nat.
Proof.
  induction 1; simpl in *; lia.
Qed.

Lemma even_double (n : nat) : Nat.even (2 * n) = true.
Proof.
  rewrite Nat.even_mul. reflexivity.
Qed.

(** The fallback on an even, non-empty payload: one channel at 24000 Hz
    holding the normalized elements of the [Int16Array]. *)
Lemma pcm_fallback_even (bytes : list byte) :
  Nat.even (List.length bytes) = true ->
  int16_elements bytes <> [] ->
  pcm_fallback bytes =
    Ok (mkAudioBuffer 1 (Z.of_nat (List.length (int16_elements bytes))) 24000
          [map (@normalized T _) (int16_elements bytes)]).
Proof.
  intros Hev Hne. unfold pcm_fallback, Int16Array_of_buffer. rewrite Hev. simpl.
  unfold createBuffer.
  destruct (int16_elements bytes) as [|v vs] eqn:E; [congruence|].
  cbn [List.length Nat.eqb orb Z.leb Z.compare bind repeat channelData nth
       numberOfChannels frameLength sampleRate store].
  rewrite <- (pcm_loop_all (v :: vs)). reflexivity.
Qed.

End DecoderFacts.

(** The frames are exact: in binary64 (and binary32) and over the rationals. *)
Lemma holdsFrom_spec (f : Z -> bool) (n : nat) (v x : Z) :
  holdsFrom f n v = true -> (v <= x < v + Z.of_nat n)%Z -> f x = true.
Proof.
  revert v; induction n as [|n IH]; intros v Hall Hx; [lia|].
  cbn [holdsFrom] in Hall. apply andb_true_iff in Hall. destruct Hall as [Hv Hrest].
  destruct (Z.eq_dec x v) as [->|Hne]; [assumption|].
  apply (IH (v + 1)%Z Hrest). lia.
Qed.

Lemma normalized_binary64_exact (v : Z) :
  (-32768 <= v < 32768)%Z -> exactFrame v = true.
Proof.
  intros Hv.
  assert (Hall : holdsFrom exactFrame (Z.to_nat 65536) (-32768) = true)
    by (vm_compute; reflexivity).
  eapply holdsFrom_spec; [exact Hall | lia].
Qed.

Lemma normalized_Qc (v : Z) : (this (@normalized Qc _ v) == v # 32768)%Q.
Proof.
  unfold normalized. cbn [num_div num_of_Z JsNumber_Qc].
  unfold Qcdiv, Qcmult, Qcinv, Qc_of_Z, Q2Qc. cbn [this]. rewrite !Qred_correct.
  unfold Qeq, Qmult, Qinv, inject_Z. cbn. lia.
Qed.

Lemma normalized_Qc_range (v : Z) :
  (-32768 <= v < 32768)%Z ->
  (Qc_of_Z (-1) <= @normalized Qc _ v)%Qc /\ (@normalized Qc _ v < Qc_of_Z 1)%Qc.
Proof.
  intros Hv. unfold Qcle, Qclt. rewrite normalized_Qc.
  unfold Qc_of_Z, Q2Qc. cbn [this]. rewrite !Qred_correct.
  unfold Qle, Qlt, inject_Z. cbn. lia.
Qed.

(** C2 (as amended: at least one sample).  A payload that the container
    decoder rejects and that encodes the samples [v_0 .. v_(N-1)], [N >= 1],
    as 16-bit little-endian signed integers decodes to a one-channel 24000 Hz
    buffer of [N = floor (bytes / 2)] frames, frame [i] being [v_i / 32768.0]. *)
Theorem fallback_decodes_samples (T : Type) `{JsNumber T}
  (decodeAudioData : list byte -> option (AudioBuffer T))
  (payload : list byte) (vs : list Z) :
  pcm16le payload vs ->
  vs <> [] ->
  decodeAudioData payload = None ->
  exists buf,
    decode_bytes decodeAudioData payload = Ok buf /\
    numberOfChannels buf = 1%nat /\
    sampleRate buf = 24000%Z /\
    frameLength buf = Z.of_nat (List.length vs) /\
    frameLength buf = Z.of_nat (List.length payload / 2) /\
    channelData buf = [map normalized vs] /\
    forall i, (i < List.length vs)%nat ->
      nth i (nth 0 (channelData buf) []) num_zero = normalized (nth i vs 0%Z).
Proof.
  intros Henc Hne Hrej.
  pose proof (pcm16le_elements Henc) as Hel.
  pose proof (pcm16le_length Henc) as Hlen.
  unfold decode_bytes. rewrite Hrej.
  rewrite pcm_fallback_even.
  - rewrite Hel. eexists; repeat split.
    + cbn [frameLength]. rewrite Hlen.
      replace (2 * List.length vs)%nat with (List.length vs * 2)%nat by lia.
      now rewrite Nat.div_mul.
    + intros i Hi. cbn [channelData nth].
      rewrite (nth_indep _ num_zero (normalized 0%Z)) by now rewrite length_map.
      apply (map_nth normalized).
  - rewrite Hlen. apply even_double.
  - now rewrite Hel.
Qed.

Lemma fallback_decodes_samples_witness :
  exists buf,
    @decode_bytes float _ (@rejectAll float) [x00; x80; xff; x7f; x01; x00] = Ok buf /\
    numberOfChannels buf = 1%nat /\
    sampleRate buf = 24000%Z /\
    frameLength buf = 3%Z /\
    frameLength buf = 3%Z /\
    channelData buf = [map normalized [-32768; 32767; 1]%Z] /\
    forall i, (i < 3)%nat ->
      nth i (nth 0 (channelData buf) []) num_zero = normalized (nth i [-32768; 32767; 1]%Z 0%Z).
Proof.
  apply (@fallback_decodes_samples float _ (@rejectAll float)
           [x00; x80; xff; x7f; x01; x00] [-32768; 32767; 1]%Z).
  - repeat (constructor; [lia | reflexivity |]). constructor.
  - discriminate.
  - reflexivity.
Defined.

(** C2, as stated, fails for [N = 0]: the empty payload encodes no sample and
    is rejected by the container decoder, and the fallback throws instead of
    returning a buffer of zero frames. *)
Lemma fallback_no_samples_throws :
  pcm16le [] [] /\
  @rejectAll float [] = None /\
  @decode_bytes float _ (@rejectAll float) [] =
    Throw (ThrownError "NotSupportedError"
      "The number of frames provided (0) is less than or equal to the minimum bound (0).") /\
  ~ (exists buf, @decode_bytes float _ (@rejectAll float) [] = Ok buf /\ frameLength buf = 0%Z).
Proof.
  split; [constructor|]. split; [reflexivity|]. split; [reflexivity|].
  intros [buf [Hdec _]]. discriminate Hdec.
Qed.

(** C3 (as amended).  An empty or odd-length payload that reaches the
    fallback makes the decoder throw: a [RangeError] from the [Int16Array]
    view when the length is odd, a [NotSupportedError] from [createBuffer]
    when the payload is empty.  No buffer is returned and no byte is dropped. *)
Theorem fallback_throws_on_empty_or_odd (T : Type) `{JsNumber T}
  (decodeAudioData : list byte -> option (AudioBuffer T)) (payload : list byte) :
  decodeAudioData payload = None ->
  payload = [] \/ Nat.odd (List.length payload) = true ->
  exists message,
    decode_bytes decodeAudioData payload =
      Throw (ThrownError
               (if Nat.odd (List.length payload) then "RangeError" else "NotSupportedError")
               message).
Proof.
  intros Hrej Hcase. unfold decode_bytes. rewrite Hrej.
  unfold pcm_fallback, Int16Array_of_buffer.
  destruct Hcase as [-> | Hodd].
  - simpl. eexists. reflexivity.
  - rewrite Hodd. rewrite <- Nat.negb_odd, Hodd. simpl. eexists. reflexivity.
Qed.

Lemma fallback_throws_on_empty_or_odd_witness :
  exists message,
    @decode_bytes float _ (@rejectAll float) [x01; x02; x03] =
      Throw (ThrownError "RangeError" message).
Proof.
  apply (@fallback_throws_on_empty_or_odd float _ (@rejectAll float) [x01; x02; x03]).
  - reflexivity.
  - right. reflexivity.
Defined.

(** C3, as stated, fails: a three-byte payload is not truncated to one frame,
    and the empty payload does not give a buffer of zero frames. *)
Lemma fallback_odd_payload_raises :
  @rejectAll float [x01; x02; x03] = None /\
  is_ok (@decode_bytes float _ (@rejectAll float) [x01; x02; x03]) = false /\
  is_ok (@decode_bytes float _ (@rejectAll float) []) = false.
Proof.
  repeat split.
Qed.

(* ------------------------------------------------------------------ *)
(** ** The story text *)




(* ------------------------------------------------------------------ *)
(** ** The audio graph *)

Lemma nth_error_store (A : Type) (l : list A) (i j : nat) (v : A) :
  nth_error (store l i v) j =
    if (j =? i)%nat && (i <? List.length l)%nat then Some v else nth_error l j.
Proof.
  revert i j; induction l as [|x t IH]; intros [|i] [|j]; simpl; auto;
    try now rewrite andb_false_r.
Qed.

Section GraphFacts.
Context {T : Type} `{JsNumber T}.

Lemma allSilent_count (ns : list (SourceNode T)) :
  allSilent ns -> List.length (filter (@nodeActive T) ns) = 0%nat.
Proof.
  induction ns as [|n ns IH]; intros Hs; simpl; auto.
  rewrite (Hs 0%nat n eq_refl).
  apply IH. intros id m Hm. apply (Hs (S id) m Hm).
Qed.

Lemma stopNode_nth_error (ns : list (SourceNode T)) (id j : nat) (n : SourceNode T) :
  nth_error (stopNode id ns) j = Some n ->
  exists m, nth_error ns j = Some m /\
    nodeBuffer n = nodeBuffer m /\ nodeOffset n = nodeOffset m /\
    nodeActive n = (if (j =? id)%nat then false else nodeActive m).
Proof.
  unfold stopNode. destruct (nth_error ns id) as [m|] eqn:E.
  - rewrite nth_error_store.
    destruct (Nat.eqb_spec j id) as [->|Hne]; simpl.
    + assert (Hlt : (id < List.length ns)%nat)
        by (apply nth_error_Some; congruence).
      apply Nat.ltb_lt in Hlt. rewrite Hlt.
      intros [= <-]. exists m. simpl. auto.
    + intros Hj. exists n. auto.
  - intros Hj. exists n. repeat split; auto.
    destruct (Nat.eqb_spec j id) as [->|Hne]; auto. congruence.
Qed.

Lemma stopNode_length (ns : list (SourceNode T)) (id : nat) :
  List.length (stopNode id ns) = List.length ns.
Proof.
  unfold stopNode. destruct (nth_error ns id); auto using store_length.
Qed.

(** Stopping the tracked output silences the graph when nothing else plays. *)
Lemma stop_tracked_silent (w : World T) (source : nat) :
  onlyTrackedActive w ->
  audioSourceRef w = Some source ->
  allSilent (stopNode source (nodes w)).
Proof.
  intros Hin Href id n Hn.
  destruct (stopNode_nth_error _ _ _ Hn) as [m [Hm [_ [_ Hact]]]].
  rewrite Hact. destruct (Nat.eqb_spec id source) as [->|Hne]; auto.
  destruct (nodeActive m) eqn:Em; auto.
  specialize (Hin id m Hm Em). congruence.
Qed.

Lemma untracked_silent (w : World T) :
  onlyTrackedActive w -> audioSourceRef w = None -> allSilent (nodes w).
Proof.
  intros Hin Href id n Hn. destruct (nodeActive n) eqn:En; auto.
  specialize (Hin id n Hn En). congruence.
Qed.


Variable newAudioContext : Result AudioContext.

(** With a context in place [initAudioContext] keeps it. *)
Lemma initAudioContext_existing (w : World T) (ctx : AudioContext) :
  audioContextRef w = Some ctx ->
  exists ctx',
    initAudioContext newAudioContext w = Ok (set_audioContextRef (Some ctx') w).
Proof.
  intros Hctx. unfold initAudioContext. rewrite Hctx. simpl. rewrite Hctx.
  exists ctx. destruct w; simpl in *. subst. now destruct (ctxState ctx).
Qed.

(** [playAudio] with a context and a buffer in place, field by field. *)
Lemma playAudio_loaded (now : T) (w : World T) (ctx : AudioContext) (buffer : AudioBuffer T) :
  audioContextRef w = Some ctx ->
  audioBufferRef w = Some buffer ->
  exists ctx',
    playAudio newAudioContext now w =
      Ok (mkWorld (state w) true (Some ctx') (Some (List.length (nodes w))) (Some buffer)
            (num_sub now (num_rem (pausedAtRef w) (duration buffer)))
            (pausedAtRef w)
            (nodes w ++ [mkSourceNode buffer (num_rem (pausedAtRef w) (duration buffer)) true])
            (inflight w) (log w)).
Proof.
  intros Hctx Hbuf. unfold playAudio.
  destruct (initAudioContext_existing w Hctx) as [ctx' ->].
  exists ctx'. cbn. rewrite Hbuf.
  unfold set_isPlaying, set_audioSourceRef, set_startTimeRef, set_nodes. cbn.
  now rewrite Hbuf.
Qed.

End GraphFacts.

(* ------------------------------------------------------------------ *)
(** ** Exact arithmetic: the remainder and the duration *)

Lemma Qfloor_scaled (p d : Q) :
  (0 < d)%Q ->
  (d * inject_Z (Qfloor (p / d)) <= p)%Q /\ (p < d * inject_Z (Qfloor (p / d)) + d)%Q.
Proof.
  intros Hd.
  pose proof (Qfloor_le (p / d)) as Hlo.
  pose proof (Qlt_floor (p / d)) as Hhi.
  rewrite inject_Z_plus in Hhi. 
  assert (Hd0 : ~ (d == 0)%Q) by (intro E; rewrite E in Hd; discriminate).
  pose proof (Qmult_div_r p d Hd0) as Hp.
  set (k := inject_Z (Qfloor (p / d))) in *.
  set (q := (p / d)%Q) in *.
  split.
  - rewrite <- Hp. apply Qmult_le_l; assumption.
  - rewrite <- Hp at 1. setoid_replace (d * k + d)%Q with (d * (k + inject_Z 1))%Q by (unfold inject_Z; ring).
    apply Qmult_lt_l; assumption.
Qed.

Lemma Qc_trunc_floor (q : Qc) : (0 <= q)%Qc -> Qc_trunc q = Qfloor q.
Proof.
  unfold Qc_trunc, Qcle. destruct q as [[n d] Hc]. simpl.
  unfold Qle. simpl. intros Hn. apply Z.quot_div_nonneg; lia.
Qed.

Lemma Qc_div_nonneg (p d : Qc) : (0 <= p)%Qc -> (0 < d)%Qc -> (0 <= p / d)%Qc.
Proof.
  unfold Qcle, Qclt, Qcdiv, Qcmult, Qcinv, Q2Qc. cbn [this]. intros Hp Hd.
  rewrite !Qred_correct.
  apply Qmult_le_0_compat; auto. apply Qinv_le_0_compat. now apply Qlt_le_weak.
Qed.

Lemma Qc_rem_this (p d : Qc) :
  (0 <= p)%Qc -> (0 < d)%Qc ->
  (this (Qc_rem p d) == this p - this d * inject_Z (Qfloor (this p / this d)))%Q.
Proof.
  intros Hp Hd. unfold Qc_rem.
  rewrite (Qc_trunc_floor (Qc_div_nonneg Hp Hd)).
  assert (Hq : (this (p / d)%Qc == this p / this d)%Q).
  { unfold Qcdiv, Qcmult, Qcinv, Q2Qc. cbn [this]. now rewrite !Qred_correct. }
  rewrite Hq.
  unfold Qcminus, Qcplus, Qcopp, Qcmult, Qc_of_Z, Q2Qc. cbn [this].
  rewrite !Qred_correct. reflexivity.
Qed.

Lemma Qc_rem_range (p d : Qc) :
  (0 <= p)%Qc -> (0 < d)%Qc -> (0 <= Qc_rem p d)%Qc /\ (Qc_rem p d < d)%Qc.
Proof.
  intros Hp Hd. unfold Qcle, Qclt. rewrite (Qc_rem_this Hp Hd).
  destruct (@Qfloor_scaled p d Hd) as [Hlo Hhi].
  change (this (Q2Qc 0)) with 0%Q.
  revert Hlo Hhi.
  generalize (inject_Z (Qfloor (this p / this d))) (this p) (this d).
  intros k x y Hlo Hhi. split; lra.
Qed.

Lemma floor_zero (k : Z) (x y : Q) :
  (0 <= x)%Q -> (x < y)%Q -> (y * inject_Z k <= x)%Q -> (x < y * inject_Z k + y)%Q -> k = 0%Z.
Proof.
  intros Hx Hxy Hlo Hhi.
  destruct (Z.lt_trichotomy k 0) as [Hneg | [Hz | Hpos]]; auto; exfalso.
  - assert (Hk1 : (inject_Z k <= -1)%Q).
    { change (-1)%Q with (inject_Z (-1)). rewrite <- Zle_Qle. lia. }
    revert Hk1 Hlo Hhi. generalize (inject_Z k). intros q Hk1 Hlo Hhi.
    assert (y * (q + 1) <= 0)%Q by nra. lra.
  - assert (Hk1 : (1 <= inject_Z k)%Q).
    { change 1%Q with (inject_Z 1). rewrite <- Zle_Qle. lia. }
    revert Hk1 Hlo Hhi. generalize (inject_Z k). intros q Hk1 Hlo Hhi.
    assert (y <= y * q)%Q by nra. lra.
Qed.

Lemma Qc_rem_small (p d : Qc) :
  (0 <= p)%Qc -> (p < d)%Qc -> Qc_rem p d = p.
Proof.
  intros Hp Hlt.
  assert (Hd : (0 < d)%Qc) by (eapply Qcle_lt_trans; eauto).
  apply Qc_is_canon. rewrite (Qc_rem_this Hp Hd).
  assert (Hk : Qfloor (this p / this d) = 0%Z).
  { destruct (@Qfloor_scaled p d Hd) as [Hlo Hhi].
    exact (floor_zero Hp Hlt Hlo Hhi). }
  rewrite Hk. unfold inject_Z. ring.
Qed.

Lemma Qc_rem_decompose (p d : Qc) :
  (0 <= p)%Qc -> (0 < d)%Qc ->
  (0 <= Qc_trunc (p / d)%Qc)%Z /\
  p = (Qc_of_Z (Qc_trunc (p / d)) * d + Qc_rem p d)%Qc.
Proof.
  intros Hp Hd. split.
  - rewrite (Qc_trunc_floor (Qc_div_nonneg Hp Hd)).
    pose proof (Qc_div_nonneg Hp Hd) as Hq. unfold Qcle in Hq. simpl in Hq.
    change 0%Z with (Qfloor 0). now apply Qfloor_resp_le.
  - unfold Qc_rem. ring.
Qed.

Lemma duration_positive (b : AudioBuffer Qc) :
  (1 <= frameLength b)%Z -> (0 < sampleRate b)%Z -> (0 < duration b)%Qc.
Proof.
  intros Hf Hr. unfold duration. cbn [num_div num_of_Z JsNumber_Qc].
  unfold Qclt, Qcdiv, Qcmult, Qcinv, Qc_of_Z, Q2Qc. cbn [this].
  rewrite !Qred_correct.
  apply Qmult_lt_0_compat.
  - replace 0%Q with (inject_Z 0) by reflexivity. rewrite <- Zlt_Qlt. lia.
  - apply Qinv_lt_0_compat. replace 0%Q with (inject_Z 0) by reflexivity. rewrite <- Zlt_Qlt. lia.
Qed.

Lemma Qc_ge_iff (a b : Qc) : Qc_ge a b = true <-> (b <= a)%Qc.
Proof.
  unfold Qc_ge, Qcle. apply Qle_bool_iff.
Qed.

(* ------------------------------------------------------------------ *)
(** ** binary64 arithmetic: the remainder and the subtraction of zero *)

Lemma digits2_pos_bounds (m : positive) :
  (2 ^ (Z.pos (digits2_pos m) - 1) <= Z.pos m < 2 ^ Z.pos (digits2_pos m))%Z.
Proof.
  induction m as [p IH|p IH|]; cbn [digits2_pos].
  - rewrite Pos2Z.inj_succ.
    replace (Z.succ (Z.pos (digits2_pos p)) - 1)%Z
      with (Z.succ (Z.pos (digits2_pos p) - 1))%Z by lia.
    rewrite !Z.pow_succ_r by lia. lia.
  - rewrite Pos2Z.inj_succ.
    replace (Z.succ (Z.pos (digits2_pos p)) - 1)%Z
      with (Z.succ (Z.pos (digits2_pos p) - 1))%Z by lia.
    rewrite !Z.pow_succ_r by lia. lia.
  - cbn. lia.
Qed.

Lemma digits2_pos_le (m : positive) (n : Z) :
  (Z.pos m < 2 ^ n)%Z -> (0 <= n)%Z -> (Z.pos (digits2_pos m) <= n)%Z.
Proof.
  intros Hm Hn. destruct (digits2_pos_bounds m) as [Hlo _].
  destruct (Z.le_gt_cases (Z.pos (digits2_pos m)) n) as [|Hgt]; [assumption|].
  assert (2 ^ n <= 2 ^ (Z.pos (digits2_pos m) - 1))%Z
    by (apply Z.pow_le_mono_r; lia).
  lia.
Qed.

Lemma iter_xO_value (m d : positive) :
  Z.pos (Pos.iter xO m d) = (Z.pos m * 2 ^ Z.pos d)%Z.
Proof.
  induction d as [|d IH] using Pos.peano_ind.
  - cbn. lia.
  - rewrite Pos.iter_succ, Pos2Z.inj_xO, IH, Pos2Z.inj_succ, Z.pow_succ_r by lia. lia.
Qed.

Lemma iter_xO_digits (m d : positive) :
  Z.pos (digits2_pos (Pos.iter xO m d)) = (Z.pos (digits2_pos m) + Z.pos d)%Z.
Proof.
  induction d as [|d IH] using Pos.peano_ind.
  - cbn [Pos.iter digits2_pos]. lia.
  - rewrite Pos.iter_succ. cbn [digits2_pos]. rewrite !Pos2Z.inj_succ, IH. lia.
Qed.

(** What validity says of a finite binary64 value. *)
Lemma valid_finite (s : bool) (m : positive) (e : Z) :
  valid_binary (S754_finite s m e) = true ->
  (Z.pos m < 2 ^ 53)%Z /\ (-1074 <= e <= 971)%Z /\
  fexp prec emax (Z.pos (digits2_pos m) + e) = e.
Proof.
  cbn [SpecFloat.valid_binary]. unfold bounded, canonical_mantissa.
  intros Hv. apply andb_true_iff in Hv. destruct Hv as [Hc He].
  apply Z.eqb_eq in Hc. apply Z.leb_le in He.
  assert (Hf := Hc). unfold fexp, SpecFloat.emin, prec, emax in Hf, He.
  destruct (digits2_pos_bounds m) as [_ Hhi].
  assert (Hd : (Z.pos (digits2_pos m) <= 53)%Z) by lia.
  assert (2 ^ Z.pos (digits2_pos m) <= 2 ^ 53)%Z by (apply Z.pow_le_mono_r; lia).
  repeat split; lia.
Qed.

Lemma canonical_valid (s : bool) (m : positive) (e : Z) :
  (Z.pos m < 2 ^ 53)%Z -> (-1074 <= e <= 971)%Z ->
  exists m' e',
    canonical s m e = S754_finite s m' e' /\
    valid_binary (S754_finite s m' e') = true /\
    (e' <= e)%Z /\ Z.pos m' = (Z.pos m * 2 ^ (e - e'))%Z /\
    e' = fexp prec emax (Z.pos (digits2_pos m) + e).
Proof.
  intros Hm He.
  pose proof (digits2_pos_le Hm ltac:(lia)) as Hd.
  unfold canonical, shl_align.
  set (f := fexp prec emax (Z.pos (digits2_pos m) + e)).
  assert (Hf : f = Z.max (Z.pos (digits2_pos m) + e - 53) (-1074)) by reflexivity.
  destruct (f - e)%Z as [|d|d] eqn:Hfe.
  - exists m, e. assert (f = e) by lia.
    split; [reflexivity|]. split.
    + cbn [SpecFloat.valid_binary]. unfold bounded, canonical_mantissa.
      fold f. apply andb_true_iff. split; [apply Z.eqb_eq; lia|].
      apply Z.leb_le. unfold prec, emax. lia.
    + repeat split; try lia. rewrite Z.sub_diag. lia.
  - lia.
  - exists (Pos.iter xO m d), f. split; [reflexivity|]. split.
    + cbn [SpecFloat.valid_binary]. unfold bounded, canonical_mantissa.
      rewrite iter_xO_digits. apply andb_true_iff. split.
      * apply Z.eqb_eq. unfold fexp, SpecFloat.emin, prec, emax. lia.
      * apply Z.leb_le. unfold prec, emax. lia.
    + repeat split; try lia. rewrite iter_xO_value. f_equal. f_equal. lia.
Qed.

Lemma canonical_self (s : bool) (m : positive) (e : Z) :
  valid_binary (S754_finite s m e) = true -> canonical s m e = S754_finite s m e.
Proof.
  intros Hv. destruct (@valid_finite s m e Hv) as [_ [_ Hf]].
  unfold canonical, shl_align. rewrite Hf, Z.sub_diag. reflexivity.
Qed.

(** The rationals binary64 values stand for. *)

Lemma pow2_pos (e : Z) : (0 < (2 # 1) ^ e)%Q.
Proof.
  apply Qpower_0_lt. reflexivity.
Qed.

Lemma scaled_shift (M e n : Z) :
  (0 <= n)%Z -> (scaled (M * 2 ^ n) e == scaled M (e + n))%Q.
Proof.
  intros Hn. unfold scaled.
  rewrite inject_Z_mult, (Zpower_Qpower 2 n Hn).
  rewrite Qpower_plus by discriminate.
  change (inject_Z 2) with (2 # 1)%Q. ring.
Qed.

Lemma scaled_lt (A B e : Z) : (scaled A e < scaled B e)%Q <-> (A < B)%Z.
Proof.
  unfold scaled. rewrite Zlt_Qlt. apply Qmult_lt_r. apply pow2_pos.
Qed.

Lemma scaled_le (A B e : Z) : (scaled A e <= scaled B e)%Q <-> (A <= B)%Z.
Proof.
  unfold scaled. rewrite Zle_Qle. apply Qmult_le_r. apply pow2_pos.
Qed.

Lemma scaled_zero (e : Z) : (scaled 0 e == 0)%Q.
Proof.
  unfold scaled. change (inject_Z 0) with 0%Q. ring.
Qed.

Lemma scaled_decompose (A B k r e : Z) :
  A = (k * B + r)%Z -> (scaled A e == inject_Z k * scaled B e + scaled r e)%Q.
Proof.
  intros ->. unfold scaled. rewrite inject_Z_plus, inject_Z_mult. ring.
Qed.

Lemma SF_to_Q_finite (s : bool) (m : positive) (e e0 : Z) :
  (e0 <= e)%Z ->
  (SF_to_Q (S754_finite s m e) ==
   scaled ((if s then Z.neg m else Z.pos m) * 2 ^ (e - e0)) e0)%Q.
Proof.
  intros He. cbn [SF_to_Q]. rewrite scaled_shift by lia.
  replace (e0 + (e - e0))%Z with e by lia. reflexivity.
Qed.

Lemma SF_to_Q_sign (s : bool) (m : positive) (e : Z) :
  (0 <= SF_to_Q (S754_finite s m e))%Q -> s = false.
Proof.
  destruct s; [|reflexivity]. cbn [SF_to_Q]. intros Hq.
  rewrite <- (scaled_zero e) in Hq. apply scaled_le in Hq. lia.
Qed.

(** The remainder of two finite non-zero binary64 values is the remainder of
    their mantissas at the common exponent, in canonical form. *)
Lemma float_rem_finite (p d : float) (sa sb : bool) (ma mb : positive) (ea eb : Z) :
  Prim2SF p = S754_finite sa ma ea ->
  Prim2SF d = S754_finite sb mb eb ->
  let e := Z.min ea eb in
  let A := (Z.pos ma * 2 ^ (ea - e))%Z in
  let B := (Z.pos mb * 2 ^ (eb - e))%Z in
  (0 < B)%Z /\ (0 <= A mod B < B)%Z /\
  isFinite (float_rem p d) = true /\
  (float_to_Q (float_rem p d) ==
   scaled (if sa then - (A mod B) else A mod B) e)%Q /\
  ((A < B)%Z -> float_rem p d = p).
Proof.
  intros Hp Hd e A B.
  assert (Hvp : valid_binary (S754_finite sa ma ea) = true)
    by (rewrite <- Hp; apply Prim2SF_valid).
  assert (Hvd : valid_binary (S754_finite sb mb eb) = true)
    by (rewrite <- Hd; apply Prim2SF_valid).
  destruct (@valid_finite sa ma ea Hvp) as [Hma [Hea Hfa]].
  destruct (@valid_finite sb mb eb Hvd) as [Hmb [Heb Hfb]].
  assert (He : (-1074 <= e <= 971)%Z) by (subst e; lia).
  assert (HA : (0 < A)%Z).
  { subst A. apply Z.mul_pos_pos; [lia|]. apply Z.pow_pos_nonneg; subst e; lia. }
  assert (HB : (0 < B)%Z).
  { subst B. apply Z.mul_pos_pos; [lia|]. apply Z.pow_pos_nonneg; subst e; lia. }
  pose proof (Z.mod_pos_bound A B HB) as Hr.
  assert (Hr53 : (A mod B < 2 ^ 53)%Z).
  { destruct (Z.le_ge_cases ea eb) as [Hle|Hge].
    - assert (Hmin : e = ea) by (subst e; lia).
      assert (HAm : A = Z.pos ma).
      { subst A. rewrite Hmin, Z.sub_diag. cbn [Z.pow]. lia. }
      pose proof (Z.mod_le A B ltac:(lia) HB). lia.
    - assert (Hmin : e = eb) by (subst e; lia).
      assert (HBm : B = Z.pos mb).
      { subst B. rewrite Hmin, Z.sub_diag. cbn [Z.pow]. lia. }
      lia. }
  split; [exact HB|]. split; [exact Hr|].
  assert (Hunfold : float_rem p d =
            match (A mod B)%Z with
            | Z.pos r => SF2Prim (canonical sa r e)
            | _ => SF2Prim (S754_zero sa)
            end).
  { unfold float_rem. rewrite Hp, Hd. reflexivity. }
  destruct (A mod B)%Z as [|r|r] eqn:Hmod.
  - assert (Hz : Prim2SF (float_rem p d) = S754_zero sa).
    { rewrite Hunfold. now apply Prim2SF_SF2Prim. }
    split; [unfold isFinite; now rewrite Hz|].
    split.
    + unfold float_to_Q. rewrite Hz. cbn [SF_to_Q].
      destruct sa; cbn [Z.opp]; now rewrite scaled_zero.
    + intros Hlt. rewrite Z.mod_small in Hmod by lia. lia.
  - destruct (@canonical_valid sa r e Hr53 He)
      as [m' [e' [Hcan [Hval [Hle [Hm' He']]]]]].
    assert (Hf : Prim2SF (float_rem p d) = S754_finite sa m' e').
    { rewrite Hunfold, Hcan. now apply Prim2SF_SF2Prim. }
    split; [unfold isFinite; now rewrite Hf|].
    split.
    + unfold float_to_Q. rewrite Hf. cbn [SF_to_Q].
      destruct sa.
      * replace (Z.neg m') with (- Z.pos r * 2 ^ (e - e'))%Z by lia.
        rewrite scaled_shift by lia.
        replace (e' + (e - e'))%Z with e by lia. reflexivity.
      * rewrite Hm', scaled_shift by lia.
        replace (e' + (e - e'))%Z with e by lia. reflexivity.
    + intros Hlt. rewrite Z.mod_small in Hmod by lia.
      apply Prim2SF_inj. rewrite Hf, Hp.
      (* the canonical form of [A * 2^e] is the representation of [p] *)
      assert (Hdig : (Z.pos (digits2_pos r) + e = Z.pos (digits2_pos ma) + ea)%Z).
      { destruct (Z.le_ge_cases ea e) as [Hs|Hs].
        - assert (e = ea) by (subst e; lia).
          assert (Z.pos r = Z.pos ma).
          { rewrite <- Hmod. subst A. replace (ea - e)%Z with 0%Z by lia.
            cbn [Z.pow]. lia. }
          congruence.
        - destruct (ea - e)%Z as [|n|n] eqn:Hn; try lia.
          + assert (Z.pos r = Z.pos ma).
            { rewrite <- Hmod. subst A. rewrite Z.pow_0_r. lia. }
            assert (e = ea) by lia. congruence.
          + assert (Hrm : r = Pos.iter xO ma n).
            { apply Pos2Z.inj. rewrite iter_xO_value, <- Hmod. subst A.
              reflexivity. }
            rewrite Hrm, iter_xO_digits. lia. }
      rewrite Hdig, Hfa in He'. subst e'.
      assert (Hmm : Z.pos m' = Z.pos ma).
      { rewrite Hm', <- Hmod. subst A.
        rewrite <- Z.mul_assoc, <- Z.pow_add_r by lia.
        replace (ea - e + (e - ea))%Z with 0%Z by lia. cbn [Z.pow]. lia. }
      injection Hmm as ->. reflexivity.
  - lia.
Qed.

Lemma positive_is_finite (d : float) :
  isFinite d = true -> (0 < float_to_Q d)%Q ->
  exists m e, Prim2SF d = S754_finite false m e.
Proof.
  unfold isFinite, float_to_Q.
  destruct (Prim2SF d) as [s|s| |s m e]; try discriminate; intros _ Hd.
  rewrite (@SF_to_Q_sign s m e (Qlt_le_weak _ _ Hd)). eauto.
Qed.

(** [p % d] on binary64, for a finite [p >= 0] and a finite [d > 0]: the
    result is the exact remainder, in [[0, d)], and [p] is a whole number of
    times [d] plus it. *)
Lemma float_rem_modulo (p d : float) :
  isFinite p = true -> isFinite d = true ->
  (0 <= float_to_Q p)%Q -> (0 < float_to_Q d)%Q ->
  isFinite (float_rem p d) = true /\
  (0 <= float_to_Q (float_rem p d))%Q /\
  (float_to_Q (float_rem p d) < float_to_Q d)%Q /\
  exists k : Z,
    (0 <= k)%Z /\
    (float_to_Q p == inject_Z k * float_to_Q d + float_to_Q (float_rem p d))%Q.
Proof.
  intros Hfp Hfd Hp Hd.
  destruct (positive_is_finite d Hfd Hd) as [mb [eb Hsd]].
  unfold isFinite in Hfp.
  destruct (Prim2SF p) as [s|s| |sa ma ea] eqn:Hsp; try discriminate Hfp.
  - assert (Hrem : float_rem p d = p).
    { unfold float_rem. rewrite Hsp, Hsd. reflexivity. }
    rewrite Hrem. unfold isFinite. rewrite Hsp.
    split; [reflexivity|]. split; [exact Hp|].
    assert (Hz : float_to_Q p = 0%Q) by (unfold float_to_Q; now rewrite Hsp).
    rewrite Hz. split; [exact Hd|]. exists 0%Z. split; [lia|].
    change (inject_Z 0) with 0%Q. ring.
  - assert (Hsa : sa = false).
    { apply (@SF_to_Q_sign sa ma ea). unfold float_to_Q in Hp. now rewrite Hsp in Hp. }
    subst sa.
    destruct (float_rem_finite p d Hsp Hsd) as [HB [Hr [Hfin [Hval _]]]].
    set (e := Z.min ea eb) in *.
    set (A := (Z.pos ma * 2 ^ (ea - e))%Z) in *.
    set (B := (Z.pos mb * 2 ^ (eb - e))%Z) in *.
    assert (Hqp : (float_to_Q p == scaled A e)%Q).
    { unfold float_to_Q. rewrite Hsp. apply SF_to_Q_finite. subst e. lia. }
    assert (Hqd : (float_to_Q d == scaled B e)%Q).
    { unfold float_to_Q. rewrite Hsd. apply SF_to_Q_finite. subst e. lia. }
    split; [exact Hfin|].
    split; [rewrite Hval, <- (scaled_zero e); apply scaled_le; lia|].
    split; [rewrite Hval, Hqd; apply scaled_lt; lia|].
    exists (A / B)%Z. split; [apply Z.div_pos; subst A; lia|].
    rewrite Hval, Hqd, Hqp. apply scaled_decompose.
    rewrite (Z.div_mod A B) at 1 by lia. lia.
Qed.

(** Below the divisor the remainder is the dividend itself. *)
Lemma float_rem_small (p d : float) :
  isFinite p = true -> isFinite d = true ->
  (0 <= float_to_Q p)%Q -> (float_to_Q p < float_to_Q d)%Q ->
  float_rem p d = p.
Proof.
  intros Hfp Hfd Hp Hlt.
  assert (Hd : (0 < float_to_Q d)%Q) by (eapply Qle_lt_trans; eauto).
  destruct (positive_is_finite d Hfd Hd) as [mb [eb Hsd]].
  unfold isFinite in Hfp.
  destruct (Prim2SF p) as [s|s| |sa ma ea] eqn:Hsp; try discriminate Hfp.
  - unfold float_rem. rewrite Hsp, Hsd. reflexivity.
  - assert (Hsa : sa = false).
    { apply (@SF_to_Q_sign sa ma ea). unfold float_to_Q in Hp. now rewrite Hsp in Hp. }
    subst sa.
    destruct (float_rem_finite p d Hsp Hsd) as [_ [_ [_ [_ Hsmall]]]].
    apply Hsmall. apply (scaled_lt _ _ (Z.min ea eb)).
    unfold float_to_Q in Hlt. rewrite Hsp, Hsd in Hlt.
    rewrite (@SF_to_Q_finite false ma ea (Z.min ea eb)),
      (@SF_to_Q_finite false mb eb (Z.min ea eb)) in Hlt by lia.
    exact Hlt.
Qed.

(** Subtracting [+0] changes nothing, whatever the value. *)
Lemma float_sub_zero (x : float) : (x - 0)%float = x.
Proof.
  apply Prim2SF_inj. rewrite FloatAxioms.sub_spec.
  change (Prim2SF 0%float) with (S754_zero false).
  destruct (Prim2SF x) as [[|]|[|]| |s m e]; reflexivity.
Qed.

(* ------------------------------------------------------------------ *)
(** ** The playback controller *)

Section PlaybackFacts.
Context {T : Type} `{JsNumber T}.
Variable newAudioContext : Result AudioContext.

Lemma nth_error_snoc (A : Type) (l : list A) (x : A) :
  nth_error (l ++ [x]) (List.length l) = Some x.
Proof.
  rewrite nth_error_app2 by lia. now rewrite Nat.sub_diag.
Qed.


Lemma stopAudio_context (w : World T) :
  audioContextRef (stopAudio w) = audioContextRef w /\
  audioBufferRef (stopAudio w) = audioBufferRef w.
Proof.
  unfold stopAudio. simpl. destruct (audioSourceRef w); auto.
Qed.





(** C6.  The [ended] event of a source resets the controller (not playing,
    paused offset 0) exactly when [ctx.currentTime - startTimeRef >= duration]
    holds for the buffer of that source; otherwise it changes neither
    [isPlaying] nor the paused offset.  In particular an [ended] event that
    follows a manual pause with less than the duration elapsed keeps the
    offset the pause stored, and after [stopAudio] the offset is 0 either way. *)
Theorem ended_resets_only_after_duration
  (w : World T) (source : nat) (node : SourceNode T) (now : T) :
  nth_error (nodes w) source = Some node ->
  (num_ge (num_sub now (startTimeRef w)) (duration (nodeBuffer node)) = true ->
     isPlaying (sourceEnded source now w) = false /\
     pausedAtRef (sourceEnded source now w) = num_zero) /\
  (num_ge (num_sub now (startTimeRef w)) (duration (nodeBuffer node)) = false ->
     isPlaying (sourceEnded source now w) = isPlaying w /\
     pausedAtRef (sourceEnded source now w) = pausedAtRef w) /\
  (forall pausedNow ctx,
     audioSourceRef w = Some source ->
     audioContextRef w = Some ctx ->
     num_ge (num_sub now (startTimeRef w)) (duration (nodeBuffer node)) = false ->
     isPlaying (sourceEnded source now (pauseAudio pausedNow w)) = false /\
     pausedAtRef (sourceEnded source now (pauseAudio pausedNow w)) =
       num_sub pausedNow (startTimeRef w)) /\
  (audioSourceRef w = Some source ->
     isPlaying (sourceEnded source now (stopAudio w)) = false /\
     pausedAtRef (sourceEnded source now (stopAudio w)) = num_zero).
Proof.
  intros Hnode.
  assert (Hstop : forall ns, nth_error ns source = Some node ->
            exists node', nth_error (stopNode source ns) source = Some node' /\
                          nodeBuffer node' = nodeBuffer node).
  { intros ns Hn. unfold stopNode. rewrite Hn, nth_error_store, Nat.eqb_refl.
    assert (Hlt : (source < List.length ns)%nat) by (apply nth_error_Some; congruence).
    apply Nat.ltb_lt in Hlt. rewrite Hlt. simpl. eexists. split; reflexivity. }
  assert (Hself : forall b, num_ge (num_sub now (startTimeRef w))
                                 (duration (nodeBuffer node)) = b ->
            isPlaying (sourceEnded source now w) = (if b then false else isPlaying w) /\
            pausedAtRef (sourceEnded source now w) = (if b then num_zero else pausedAtRef w)).
  { intros b Hb. unfold sourceEnded, onended. rewrite Hnode.
    cbn [startTimeRef set_nodes]. rewrite Hb. destruct b; split; reflexivity. }
  split; [exact (Hself true)|]. split; [exact (Hself false)|]. split.
  - intros pausedNow ctx Href Hctx Hguard.
    unfold pauseAudio. rewrite Href, Hctx.
    destruct (Hstop (nodes w) Hnode) as [node' [Hn' Hb']].
    unfold sourceEnded, onended. cbn. rewrite Hn'. cbn. rewrite Hb', Hguard.
    split; reflexivity.
  - intros Href.
    destruct (Hstop (nodes w) Hnode) as [node' [Hn' Hb']].
    clear Hself.
    unfold stopAudio, sourceEnded, onended. cbn. rewrite Href. cbn. rewrite Hn'. cbn.
    destruct (num_ge _ _); split; reflexivity.
Qed.

End PlaybackFacts.



Lemma ended_resets_only_after_duration_witness :
  let w := @playTwice float _ 0%float 0.5%float in
  nth_error (nodes w) 1%nat = Some (mkSourceNode sampleBuffer 0%float true) /\
  isPlaying (sourceEnded 1%nat 1.5%float w) = false /\
  pausedAtRef (sourceEnded 1%nat 1.5%float w) = 0%float /\
  isPlaying (sourceEnded 1%nat 0.50048828125%float w) = true /\
  pausedAtRef (sourceEnded 1%nat 0.50048828125%float (pauseAudio 0.50048828125%float w)) = 0.00048828125%float.
Proof.
  intros w.
  assert (Hnode : nth_error (nodes w) 1%nat = Some (mkSourceNode sampleBuffer 0%float true))
    by (vm_compute; reflexivity).
  split; [exact Hnode|].
  destruct (@ended_resets_only_after_duration float _ w 1%nat _ 1.5%float Hnode)
    as [Hreset _].
  destruct (@ended_resets_only_after_duration float _ w 1%nat _ 0.50048828125%float Hnode)
    as [_ [Hkeep _]].
  destruct (@ended_resets_only_after_duration float _ w 1%nat _ 0.50048828125%float Hnode)
    as [_ [_ [Hpause _]]].
  destruct (Hreset ltac:(vm_compute; reflexivity)) as [Hr1 Hr2].
  destruct (Hkeep ltac:(vm_compute; reflexivity)) as [Hk1 _].
  destruct (Hpause 0.50048828125%float sampleContext ltac:(vm_compute; reflexivity)
              ltac:(vm_compute; reflexivity) ltac:(vm_compute; reflexivity)) as [_ Hp2].
  split; [exact Hr1|]. split; [exact Hr2|]. split.
  - rewrite Hk1. vm_compute. reflexivity.
  - rewrite Hp2. vm_compute. reflexivity.
Defined.

(** C4.  [playAudio] starts the new source at [pausedAt % duration] and
    records [startTimeRef = currentTime - offset], in any arithmetic.  For
    every non-negative paused offset, possibly beyond the duration, and
    every positive duration, [offset] is [pausedAt] modulo the duration:
    [0 <= offset < duration] and [pausedAt = k * duration + offset] for an
    integer [k >= 0].  This holds in exact arithmetic, and in binary64,
    where [%] is exact and the values are read as the rationals they stand
    for. *)
Theorem play_starts_at_offset_modulo_duration :
  (forall (T : Type) (num : JsNumber T) (newAudioContext : Result AudioContext)
          (now : T) (w : World T) (ctx : AudioContext) (buffer : AudioBuffer T),
     audioContextRef w = Some ctx ->
     audioBufferRef w = Some buffer ->
     exists w' source,
       playAudio newAudioContext now w = Ok w' /\
       isPlaying w' = true /\
       audioSourceRef w' = Some (List.length (nodes w)) /\
       nth_error (nodes w') (List.length (nodes w)) = Some source /\
       nodeActive source = true /\
       nodeBuffer source = buffer /\
       nodeOffset source = num_rem (pausedAtRef w) (duration buffer) /\
       startTimeRef w' = num_sub now (nodeOffset source)) /\
  (forall (newAudioContext : Result AudioContext) (now : Qc) (w : World Qc)
          (ctx : AudioContext) (buffer : AudioBuffer Qc),
     audioContextRef w = Some ctx ->
     audioBufferRef w = Some buffer ->
     (1 <= frameLength buffer)%Z ->
     (0 < sampleRate buffer)%Z ->
     (0 <= pausedAtRef w)%Qc ->
     exists w' source k,
       playAudio newAudioContext now w = Ok w' /\
       nth_error (nodes w') (List.length (nodes w)) = Some source /\
       (0 <= nodeOffset source)%Qc /\
       (nodeOffset source < duration buffer)%Qc /\
       (0 <= k)%Z /\
       pausedAtRef w = (Qc_of_Z k * duration buffer + nodeOffset source)%Qc /\
       startTimeRef w' = (now - nodeOffset source)%Qc) /\
  (forall (newAudioContext : Result AudioContext) (now : float) (w : World float)
          (ctx : AudioContext) (buffer : AudioBuffer float),
     audioContextRef w = Some ctx ->
     audioBufferRef w = Some buffer ->
     isFinite (pausedAtRef w) = true ->
     isFinite (duration buffer) = true ->
     (0 <= float_to_Q (pausedAtRef w))%Q ->
     (0 < float_to_Q (duration buffer))%Q ->
     exists w' source k,
       playAudio newAudioContext now w = Ok w' /\
       nth_error (nodes w') (List.length (nodes w)) = Some source /\
       isFinite (nodeOffset source) = true /\
       (0 <= float_to_Q (nodeOffset source))%Q /\
       (float_to_Q (nodeOffset source) < float_to_Q (duration buffer))%Q /\
       (0 <= k)%Z /\
       (float_to_Q (pausedAtRef w) ==
        inject_Z k * float_to_Q (duration buffer) + float_to_Q (nodeOffset source))%Q /\
       startTimeRef w' = (now - nodeOffset source)%float).
Proof.
  split; [|split].
  - intros T num newAudioContext now w ctx buffer Hctx Hbuf.
    destruct (playAudio_loaded newAudioContext now w Hctx Hbuf) as [ctx' Hplay].
    eexists. eexists. split; [exact Hplay|].
    cbn [isPlaying audioSourceRef nodes startTimeRef].
    rewrite nth_error_snoc. repeat split.
  - intros newAudioContext now w ctx buffer Hctx Hbuf Hlen Hrate Hp.
    pose proof (duration_positive buffer Hlen Hrate) as Hd.
    destruct (playAudio_loaded newAudioContext now w Hctx Hbuf) as [ctx' Hplay].
    destruct (Qc_rem_range Hp Hd) as [Hlo Hhi].
    destruct (Qc_rem_decompose Hp Hd) as [Hk Hdec].
    eexists. eexists. exists (Qc_trunc (pausedAtRef w / duration buffer)%Qc).
    split; [exact Hplay|].
    cbn [nodes startTimeRef]. rewrite nth_error_snoc.
    repeat split; try reflexivity; assumption.
  - intros newAudioContext now w ctx buffer Hctx Hbuf Hfp Hfd Hp Hd.
    destruct (playAudio_loaded newAudioContext now w Hctx Hbuf) as [ctx' Hplay].
    destruct (float_rem_modulo (pausedAtRef w) (duration buffer) Hfp Hfd Hp Hd)
      as [Hfin [Hlo [Hhi [k [Hk Hdec]]]]].
    eexists. eexists. exists k.
    split; [exact Hplay|].
    cbn [nodes startTimeRef]. rewrite nth_error_snoc.
    split; [reflexivity|]. cbn [nodeOffset num_rem num_sub JsNumber_float].
    repeat split; assumption.
Qed.

Lemma play_starts_at_offset_modulo_duration_witness :
  let w := @loadedWorld float _ 0.0025%float in
  isFinite (pausedAtRef w) = true /\
  isFinite (@duration float _ sampleBuffer) = true /\
  (0 <= float_to_Q (pausedAtRef w))%Q /\
  (0 < float_to_Q (@duration float _ sampleBuffer))%Q /\
  exists w' source k,
    playAudio (Ok sampleContext) 3%float w = Ok w' /\
    nth_error (nodes w') 0%nat = Some source /\
    isFinite (nodeOffset source) = true /\
    (0 <= float_to_Q (nodeOffset source))%Q /\
    (float_to_Q (nodeOffset source) < float_to_Q (@duration float _ sampleBuffer))%Q /\
    (0 <= k)%Z /\
    (float_to_Q (pausedAtRef w) ==
     inject_Z k * float_to_Q (@duration float _ sampleBuffer) +
     float_to_Q (nodeOffset source))%Q /\
    startTimeRef w' = (3 - nodeOffset source)%float.
Proof.
  intros w.
  assert (Hfp : isFinite (pausedAtRef w) = true) by (vm_compute; reflexivity).
  assert (Hfd : isFinite (@duration float _ sampleBuffer) = true)
    by (vm_compute; reflexivity).
  assert (Hp : (0 <= float_to_Q (pausedAtRef w))%Q) by (vm_compute; discriminate).
  assert (Hd : (0 < float_to_Q (@duration float _ sampleBuffer))%Q)
    by (vm_compute; reflexivity).
  split; [exact Hfp|]. split; [exact Hfd|]. split; [exact Hp|]. split; [exact Hd|].
  exact (proj2 (proj2 play_starts_at_offset_modulo_duration) (Ok sampleContext) 3%float w
           sampleContext sampleBuffer eq_refl eq_refl Hfp Hfd Hp Hd).
Defined.

(** The same call in binary64 arithmetic: paused 2.5 ms into a 1 ms buffer,
    playback resumes at [0.0025 % 0.001]. *)
Example play_offset_binary64 :
  nodes (run (Ok sampleContext) sampleAtob (@rejectAll float)
           (loadedWorld 0.0025%float) [CallPlay 3%float]) =
    [mkSourceNode sampleBuffer (float_rem 0.0025 0.001)%float true] /\
  (float_rem 0.0025 0.001 = 0.0005)%float.
Proof.
  split; vm_compute; reflexivity.
Qed.

(** C5 (as amended).  [playAudio] then [pauseAudio] at the same engine time
    stores [now - (now - pausedAt % duration)] as the paused offset.  For
    [0 <= pausedAt < duration] the modulo is the identity, in exact
    arithmetic and in binary64, so that the stored value is
    [now - (now - pausedAt)]: [pausedAt] itself in exact arithmetic, and in
    binary64 the result of the two rounded subtractions, which need not be
    [pausedAt]. *)
Theorem play_then_pause_at_once :
  (forall (T : Type) (num : JsNumber T) (newAudioContext : Result AudioContext)
          (now : T) (w : World T) (ctx : AudioContext) (buffer : AudioBuffer T),
     audioContextRef w = Some ctx ->
     audioBufferRef w = Some buffer ->
     exists w1,
       playAudio newAudioContext now w = Ok w1 /\
       isPlaying (pauseAudio now w1) = false /\
       audioSourceRef (pauseAudio now w1) = None /\
       pausedAtRef (pauseAudio now w1) =
         num_sub now (num_sub now (num_rem (pausedAtRef w) (duration buffer)))) /\
  (forall (newAudioContext : Result AudioContext) (now : Qc) (w : World Qc)
          (ctx : AudioContext) (buffer : AudioBuffer Qc),
     audioContextRef w = Some ctx ->
     audioBufferRef w = Some buffer ->
     (0 <= pausedAtRef w)%Qc ->
     (pausedAtRef w < duration buffer)%Qc ->
     exists w1,
       playAudio newAudioContext now w = Ok w1 /\
       isPlaying (pauseAudio now w1) = false /\
       pausedAtRef (pauseAudio now w1) = pausedAtRef w) /\
  (forall (newAudioContext : Result AudioContext) (now : float) (w : World float)
          (ctx : AudioContext) (buffer : AudioBuffer float),
     audioContextRef w = Some ctx ->
     audioBufferRef w = Some buffer ->
     isFinite (pausedAtRef w) = true ->
     isFinite (duration buffer) = true ->
     (0 <= float_to_Q (pausedAtRef w))%Q ->
     (float_to_Q (pausedAtRef w) < float_to_Q (duration buffer))%Q ->
     exists w1 source,
       playAudio newAudioContext now w = Ok w1 /\
       nth_error (nodes w1) (List.length (nodes w)) = Some source /\
       nodeOffset source = pausedAtRef w /\
       isPlaying (pauseAudio now w1) = false /\
       pausedAtRef (pauseAudio now w1) = (now - (now - pausedAtRef w))%float).
Proof.
  assert (Hgen : forall (T : Type) (num : JsNumber T) (newAudioContext : Result AudioContext)
          (now : T) (w : World T) (ctx : AudioContext) (buffer : AudioBuffer T),
     audioContextRef w = Some ctx ->
     audioBufferRef w = Some buffer ->
     exists w1,
       playAudio newAudioContext now w = Ok w1 /\
       isPlaying (pauseAudio now w1) = false /\
       audioSourceRef (pauseAudio now w1) = None /\
       pausedAtRef (pauseAudio now w1) =
         num_sub now (num_sub now (num_rem (pausedAtRef w) (duration buffer)))).
  { intros T num newAudioContext now w ctx buffer Hctx Hbuf.
    destruct (playAudio_loaded newAudioContext now w Hctx Hbuf) as [ctx' Hplay].
    eexists. split; [exact Hplay|]. repeat split. }
  split; [exact Hgen|]. split.
  - intros newAudioContext now w ctx buffer Hctx Hbuf Hlo Hhi.
    destruct (Hgen Qc _ newAudioContext now w ctx buffer Hctx Hbuf)
      as [w1 [Hplay [Hplaying [_ Hpaused]]]].
    exists w1. repeat split; try assumption.
    rewrite Hpaused. cbn [num_sub num_rem JsNumber_Qc].
    rewrite (Qc_rem_small Hlo Hhi). ring.
  - intros newAudioContext now w ctx buffer Hctx Hbuf Hfp Hfd Hlo Hhi.
    destruct (playAudio_loaded newAudioContext now w Hctx Hbuf) as [ctx' Hplay].
    pose proof (float_rem_small (pausedAtRef w) (duration buffer) Hfp Hfd Hlo Hhi)
      as Hrem.
    destruct (Hgen float _ newAudioContext now w ctx buffer Hctx Hbuf)
      as [w1 [Hplay1 [Hplaying [_ Hpaused]]]].
    rewrite Hplay in Hplay1. injection Hplay1 as <-.
    eexists. eexists. split; [exact Hplay|].
    cbn [nodes]. rewrite nth_error_snoc. split; [reflexivity|].
    cbn [nodeOffset num_rem JsNumber_float]. split; [exact Hrem|].
    split; [exact Hplaying|].
    refine (eq_trans Hpaused _).
    exact (f_equal (fun x => (now - (now - x))%float) Hrem).
Qed.

Lemma play_then_pause_at_once_witness :
  let w := @loadedWorld float _ 0.0004%float in
  isFinite (pausedAtRef w) = true /\
  isFinite (@duration float _ sampleBuffer) = true /\
  (0 <= float_to_Q (pausedAtRef w))%Q /\
  (float_to_Q (pausedAtRef w) < float_to_Q (@duration float _ sampleBuffer))%Q /\
  exists w1 source,
    playAudio (Ok sampleContext) 3.3%float w = Ok w1 /\
    nth_error (nodes w1) 0%nat = Some source /\
    nodeOffset source = 0.0004%float /\
    isPlaying (pauseAudio 3.3%float w1) = false /\
    pausedAtRef (pauseAudio 3.3%float w1) = (3.3 - (3.3 - 0.0004))%float.
Proof.
  intros w.
  assert (Hfp : isFinite (pausedAtRef w) = true) by (vm_compute; reflexivity).
  assert (Hfd : isFinite (@duration float _ sampleBuffer) = true)
    by (vm_compute; reflexivity).
  assert (Hlo : (0 <= float_to_Q (pausedAtRef w))%Q) by (vm_compute; discriminate).
  assert (Hhi : (float_to_Q (pausedAtRef w) <
                 float_to_Q (@duration float _ sampleBuffer))%Q)
    by (vm_compute; reflexivity).
  split; [exact Hfp|]. split; [exact Hfd|]. split; [exact Hlo|]. split; [exact Hhi|].
  exact (proj2 (proj2 play_then_pause_at_once) (Ok sampleContext) 3.3%float w
           sampleContext sampleBuffer eq_refl eq_refl Hfp Hfd Hlo Hhi).
Defined.

(** C5, as stated, fails in the arithmetic the program runs on: paused at
    0.4 ms of a 1 ms buffer, [playAudio] then [pauseAudio] at engine time 3.3
    stores 0.00039999999999995595, not the offset it started from. *)
Lemma play_pause_binary64_drift :
  PrimFloat.leb 0 0.0004 = true /\
  PrimFloat.ltb 0.0004 (@duration float _ sampleBuffer) = true /\
  pausedAtRef (@playThenPause float _ 0.0004%float 3.3%float) =
    (3.3 - (3.3 - 0.0004))%float /\
  pausedAtRef (@playThenPause float _ 0.0004%float 3.3%float) =
    0.00039999999999995595%float /\
  PrimFloat.eqb (pausedAtRef (@playThenPause float _ 0.0004%float 3.3%float))
    0.0004 = false /\
  pausedAtRef (@playThenPause float _ 0.0004%float 3.3%float) <> 0.0004%float.
Proof.
  repeat split; try (vm_compute; reflexivity).
  intros Heq.
  apply (f_equal (fun x => PrimFloat.eqb x 0.0004)) in Heq.
  vm_compute in Heq. discriminate Heq.
Qed.

(* ------------------------------------------------------------------ *)
(** ** The generation pipeline *)

Lemma store_snoc (A : Type) (l : list A) (x y : A) :
  store (l ++ [x]) (List.length l) y = l ++ [y].
Proof.
  induction l as [|a l IH]; simpl; auto. now rewrite IH.
Qed.

Lemma count_store (l : list Pending) (k : nat) (p q : Pending) :
  nth_error l k = Some q ->
  (List.length (filter waiting (store l k p)) + (if waiting q then 1 else 0) =
   List.length (filter waiting l) + (if waiting p then 1 else 0))%nat.
Proof.
  revert k; induction l as [|a l IH]; intros [|k] Hk; simpl in *; try discriminate.
  - injection Hk as ->. destruct (waiting q), (waiting p); simpl; lia.
  - specialize (IH k Hk). destruct (waiting a); simpl; lia.
Qed.

Section PipelineFacts.
Context {T : Type} `{JsNumber T}.
Variable newAudioContext : Result AudioContext.
Variable atob : string -> option (list byte).
Variable decodeAudioData : list byte -> option (AudioBuffer T).

(** [handleGenerate] up to its first [await], field by field. *)
Lemma handleGenerate_fields (w : World T) (c : Coordinates T) :
  coords (state w) = Some c ->
  handleGenerate w =
    mkWorld (withStatus "Scanning Environment..." (startGenerating (state w)))
      false (audioContextRef w) None None (startTimeRef w) num_zero
      (match audioSourceRef w with
       | Some source => stopNode source (nodes w)
       | None => nodes w
       end)
      (inflight w ++ [AwaitText])
      (log w ++ [EvStopAudio; EvDiscardBuffer;
                 EvRequest (ReqText c (timeOfDay (state w)) (selectedVibe (state w)))]).
Proof.
  intros Hc. unfold handleGenerate. rewrite Hc.
  unfold stopAudio, emit, setState. cbn.
  destruct (audioSourceRef w); cbn; now rewrite <- !app_assoc.
Qed.

(** [initAudioContext] depends on the world through [audioContextRef] only
    and changes nothing else. *)
Lemma initAudioContext_transfer (w w' : World T) :
  audioContextRef w' = audioContextRef w ->
  match initAudioContext newAudioContext w with
  | Throw e => initAudioContext newAudioContext w' = Throw e
  | Ok w1 =>
      exists c, audioContextRef w1 = Some c /\
        initAudioContext newAudioContext w' = Ok (set_audioContextRef (Some c) w')
  end.
Proof.
  intros Heq. unfold initAudioContext. rewrite Heq.
  destruct (audioContextRef w) as [c|] eqn:Ec.
  - cbn. rewrite Heq, Ec.
    destruct (ctxState c); exists c; (split; [assumption|]);
      destruct w'; cbn in *; now subst.
  - destruct newAudioContext as [c|e]; cbn; auto.
    destruct (ctxState c); exists c; split; reflexivity.
Qed.

Lemma textSettled_waiting (k : nat) (outcome : Result GenerateContentResponse) (w : World T) :
  nth_error (inflight w) k = Some AwaitText ->
  textSettled k outcome w =
    match storyOfOutcome outcome with
    | Ok storyResponse =>
        set_pending k AwaitSpeech
          (emit (EvRequest (ReqSpeech (text storyResponse)))
             (setState (withStory storyResponse) w))
    | Throw err => catchHandler k err w
    end.
Proof.
  intros Hk. unfold textSettled. now rewrite Hk.
Qed.

Lemma speechSettled_finished (k : nat) (outcome : Result GenerateContentResponse) (w : World T) :
  nth_error (inflight w) k = Some Finished ->
  speechSettled newAudioContext k outcome w = w.
Proof.
  intros Hk. unfold speechSettled. now rewrite Hk.
Qed.

Lemma decodeSettled_finished (k : nat) (now : T) (w : World T) :
  nth_error (inflight w) k = Some Finished ->
  decodeSettled newAudioContext atob decodeAudioData k now w = w.
Proof.
  intros Hk. unfold decodeSettled. now rewrite Hk.
Qed.

(** C7.  [handleGenerate] with coordinates available calls [stopAudio] and
    sets [audioBufferRef] to null before it issues its first request,
    whether or not anything was playing: when the text request goes out the
    tracked source has been stopped, nothing is tracked, the paused offset is
    0, and the buffer is gone. *)
Theorem generate_resets_audio_first (w : World T) (c : Coordinates T) :
  coords (state w) = Some c ->
  log (handleGenerate w) =
    log w ++ [EvStopAudio; EvDiscardBuffer;
              EvRequest (ReqText c (timeOfDay (state w)) (selectedVibe (state w)))] /\
  audioBufferRef (handleGenerate w) = None /\
  audioSourceRef (handleGenerate w) = None /\
  isPlaying (handleGenerate w) = false /\
  pausedAtRef (handleGenerate w) = num_zero /\
  (forall source node,
     audioSourceRef w = Some source ->
     nth_error (nodes (handleGenerate w)) source = Some node ->
     nodeActive node = false) /\
  (onlyTrackedActive w -> activeOutputs (handleGenerate w) = 0%nat) /\
  inflight (handleGenerate w) = inflight w ++ [AwaitText] /\
  isGenerating (state (handleGenerate w)) = true.
Proof.
  intros Hc. rewrite (handleGenerate_fields w Hc). cbn.
  repeat split.
  - intros source node Href Hnode. rewrite Href in Hnode.
    destruct (stopNode_nth_error _ _ _ Hnode) as [m [_ [_ [_ Hact]]]].
    now rewrite Nat.eqb_refl in Hact.
  - intros Hin. unfold activeOutputs. cbn. apply allSilent_count.
    destruct (audioSourceRef w) as [source|] eqn:E.
    + now apply stop_tracked_silent.
    + now apply untracked_silent.
Qed.

Lemma storyOfOutcome_throw (outcome : Result GenerateContentResponse) (e : Thrown) :
  storyOfOutcome outcome = Throw e ->
  e = ThrownError "Error"
        "Failed to weave the narrative thread. The connection to the neural net was interrupted.".
Proof.
  destruct outcome; simpl; intros Heq; now inversion Heq.
Qed.

Lemma speechOfOutcome_throw (outcome : Result GenerateContentResponse) (e : Thrown) :
  speechOfOutcome outcome = Throw e ->
  e = ThrownError "Error" "Voice synthesis module failed.".
Proof.
  unfold speechOfOutcome.
  match goal with |- match ?x with _ => _ end = _ -> _ => destruct x end;
    intros Heq; now inversion Heq.
Qed.

(** C8.  When a stage of a generation cycle fails, the cycle ends with
    [isGenerating] cleared, the reason in [error] and the status
    "Process Aborted"; no request of a later stage is issued; the narrative
    of stage 1 stays in [storyText] when stage 2 or 3 fails, and
    [storyText] stays null when stage 1 fails. *)
Theorem failed_cycle_aborts (w : World T) (c : Coordinates T)
  (textOutcome speechOutcome : Result GenerateContentResponse) (now : T) :
  coords (state w) = Some c ->
  let k := List.length (inflight w) in
  let w' := runCycle newAudioContext atob decodeAudioData textOutcome speechOutcome now w in
  let started :=
    log w ++ [EvStopAudio; EvDiscardBuffer;
              EvRequest (ReqText c (timeOfDay (state w)) (selectedVibe (state w)))] in
  (forall e, storyOfOutcome textOutcome = Throw e ->
     abortedWith k
       "Failed to weave the narrative thread. The connection to the neural net was interrupted."
       w' /\
     storyText (state w') = None /\
     stateGroundingSources (state w') = [] /\
     log w' = started) /\
  (forall story e,
     storyOfOutcome textOutcome = Ok story ->
     speechOfOutcome speechOutcome = Throw e ->
     abortedWith k "Voice synthesis module failed." w' /\
     storyText (state w') = Some (text story) /\
     stateGroundingSources (state w') = groundingSources story /\
     log w' = started ++ [EvRequest (ReqSpeech (text story))]) /\
  (forall story base64Audio e,
     storyOfOutcome textOutcome = Ok story ->
     speechOfOutcome speechOutcome = Ok base64Audio ->
     initAudioContext newAudioContext w = Throw e ->
     abortedWith k (errorMessageOf e) w' /\
     storyText (state w') = Some (text story) /\
     stateGroundingSources (state w') = groundingSources story /\
     log w' = started ++ [EvRequest (ReqSpeech (text story))]) /\
  (forall story base64Audio e,
     storyOfOutcome textOutcome = Ok story ->
     speechOfOutcome speechOutcome = Ok base64Audio ->
     is_ok (initAudioContext newAudioContext w) = true ->
     decodeAndPlay atob decodeAudioData base64Audio = Throw e ->
     abortedWith k (errorMessageOf e) w' /\
     storyText (state w') = Some (text story) /\
     stateGroundingSources (state w') = groundingSources story /\
     log w' = started ++ [EvRequest (ReqSpeech (text story));
                          EvRequest (ReqDecode base64Audio)]).
Proof.
  intros Hc k w' started.
  assert (Hw' : w' = decodeSettled newAudioContext atob decodeAudioData k now
                  (speechSettled newAudioContext k speechOutcome
                     (textSettled k textOutcome (handleGenerate w)))) by reflexivity.
  clearbody w'.
  assert (Hk : nth_error (inflight (handleGenerate w)) k = Some AwaitText).
  { rewrite (handleGenerate_fields w Hc). cbn [inflight]. apply nth_error_snoc. }
  rewrite (textSettled_waiting k textOutcome _ Hk) in Hw'.
  clear Hk.
  rewrite (handleGenerate_fields w Hc) in Hw'.
  assert (Hdone : forall v : World T,
            nth_error (inflight v) k = Some Finished ->
            decodeSettled newAudioContext atob decodeAudioData k now
              (speechSettled newAudioContext k speechOutcome v) = v).
  { intros v Hv. rewrite speechSettled_finished by assumption.
    now apply decodeSettled_finished. }
  subst k started.
  split; [|split; [|split]].
  - intros e He. rewrite He in Hw'.
    rewrite (storyOfOutcome_throw _ He) in Hw'.
    unfold catchHandler, set_pending, setState in Hw'. cbn in Hw'.
    rewrite store_snoc in Hw'.
    rewrite Hdone in Hw' by (cbn; apply nth_error_snoc).
    rewrite Hw'. unfold abortedWith. cbn. rewrite nth_error_snoc.
    repeat split.
  - intros story e Hstory Hspeech. rewrite Hstory in Hw'.
    unfold set_pending, emit, setState in Hw'. cbn in Hw'.
    rewrite store_snoc in Hw'.
    unfold speechSettled in Hw'. cbn in Hw'. rewrite nth_error_snoc in Hw'.
    rewrite Hspeech in Hw'. rewrite (speechOfOutcome_throw _ Hspeech) in Hw'.
    unfold catchHandler, set_pending, setState in Hw'. cbn in Hw'.
    rewrite store_snoc in Hw'.
    rewrite decodeSettled_finished in Hw' by (cbn; apply nth_error_snoc).
    rewrite Hw'. unfold abortedWith. cbn. rewrite nth_error_snoc.
    rewrite <- app_assoc. repeat split.
  - intros story base64Audio e Hstory Hspeech Hinit. rewrite Hstory in Hw'.
    unfold set_pending, emit, setState in Hw'. cbn in Hw'.
    rewrite store_snoc in Hw'.
    unfold speechSettled in Hw'. cbn in Hw'. rewrite nth_error_snoc in Hw'.
    rewrite Hspeech in Hw'.
    match type of Hw' with context [initAudioContext _ ?v] =>
      pose proof (@initAudioContext_transfer w v eq_refl) as Htr
    end.
    rewrite Hinit in Htr. rewrite Htr in Hw'.
    unfold catchHandler, set_pending, setState in Hw'. cbn in Hw'.
    rewrite store_snoc in Hw'.
    rewrite decodeSettled_finished in Hw' by (cbn; apply nth_error_snoc).
    rewrite Hw'. unfold abortedWith. cbn. rewrite nth_error_snoc.
    rewrite <- app_assoc. repeat split.
  - intros story base64Audio e Hstory Hspeech Hinit Hdec. rewrite Hstory in Hw'.
    unfold set_pending, emit, setState in Hw'. cbn in Hw'.
    rewrite store_snoc in Hw'.
    unfold speechSettled in Hw'. cbn in Hw'. rewrite nth_error_snoc in Hw'.
    rewrite Hspeech in Hw'.
    match type of Hw' with context [initAudioContext _ ?v] =>
      pose proof (@initAudioContext_transfer w v eq_refl) as Htr
    end.
    destruct (initAudioContext newAudioContext w) as [w1|e1]; [|discriminate Hinit].
    destruct Htr as [ctx [_ Htr]]. rewrite Htr in Hw'.
    unfold set_pending, emit in Hw'. cbn in Hw'. rewrite store_snoc in Hw'.
    unfold decodeSettled in Hw'. cbn in Hw'. rewrite nth_error_snoc in Hw'.
    rewrite Hdec in Hw'.
    unfold catchHandler, set_pending, setState in Hw'. cbn in Hw'.
    rewrite store_snoc in Hw'.
    rewrite Hw'. unfold abortedWith. cbn. rewrite nth_error_snoc.
    rewrite <- !app_assoc. repeat split.
Qed.

(** The invariant reads the pending invocations and [isGenerating] only. *)
Lemma gateInvariant_same (w w' : World T) :
  inflight w' = inflight w ->
  isGenerating (state w') = isGenerating (state w) ->
  gateInvariant w -> gateInvariant w'.
Proof.
  unfold gateInvariant, cyclesInFlight. intros -> ->. auto.
Qed.

Lemma generateEnabled_idle (w : World T) :
  generateEnabled w = true -> isGenerating (state w) = false.
Proof.
  unfold generateEnabled.
  destruct (isSome (audioBufferRef w)), (isGenerating (state w)); simpl; auto.
Qed.

(** An invocation that goes on waiting keeps the invariant. *)
Lemma gateInvariant_continue (w : World T) (k : nat) (p q : Pending) (a : AppState T)
  (ctx : option AudioContext) (l : list (Event T)) :
  nth_error (inflight w) k = Some q ->
  waiting q = true -> waiting p = true ->
  isGenerating a = isGenerating (state w) ->
  gateInvariant w ->
  gateInvariant (mkWorld a (isPlaying w) ctx (audioSourceRef w) (audioBufferRef w)
                   (startTimeRef w) (pausedAtRef w) (nodes w)
                   (store (inflight w) k p) l).
Proof.
  intros Hk Hq Hp Ha [Hle Hidle]. unfold gateInvariant, cyclesInFlight in *. cbn.
  pose proof (count_store (inflight w) k p Hk) as Hc. rewrite Hq, Hp in Hc.
  rewrite Ha. split; [lia|]. intros Hg. specialize (Hidle Hg). lia.
Qed.

(** An invocation that returns leaves no invocation waiting. *)
Lemma gateInvariant_finish (w v : World T) (k : nat) (q : Pending) :
  nth_error (inflight w) k = Some q ->
  waiting q = true ->
  inflight v = store (inflight w) k Finished ->
  gateInvariant w -> gateInvariant v.
Proof.
  intros Hk Hq Hv [Hle Hidle]. unfold gateInvariant, cyclesInFlight in *.
  rewrite Hv.
  pose proof (count_store (inflight w) k Finished Hk) as Hc. rewrite Hq in Hc.
  simpl in Hc. split; [lia|]. intros _. lia.
Qed.

Lemma initAudioContext_frame (w w1 : World T) :
  initAudioContext newAudioContext w = Ok w1 ->
  state w1 = state w /\ inflight w1 = inflight w /\ isPlaying w1 = isPlaying w /\
  audioSourceRef w1 = audioSourceRef w /\ audioBufferRef w1 = audioBufferRef w /\
  startTimeRef w1 = startTimeRef w /\ pausedAtRef w1 = pausedAtRef w /\
  nodes w1 = nodes w /\ log w1 = log w.
Proof.
  unfold initAudioContext.
  destruct (audioContextRef w) as [c|] eqn:Ec; cbn.
  - rewrite Ec. destruct (ctxState c); intros [= <-]; cbn; repeat split.
  - destruct newAudioContext as [c|e]; cbn; [|discriminate].
    destruct (ctxState c); intros [= <-]; cbn; repeat split.
Qed.

Lemma playAudio_frame (now : T) (w w' : World T) :
  playAudio newAudioContext now w = Ok w' ->
  state w' = state w /\ inflight w' = inflight w.
Proof.
  unfold playAudio.
  destruct (initAudioContext newAudioContext w) as [w1|e] eqn:Ei; cbn; [|discriminate].
  destruct (initAudioContext_frame w Ei) as [Hs [Hi _]].
  destruct (audioContextRef w1), (audioBufferRef w1); intros [= <-]; cbn; auto.
Qed.

Lemma uiStep_gateInvariant (w : World T) (i : @Input T) :
  gateInvariant w ->
  gateInvariant (uiStep newAudioContext atob decodeAudioData w i).
Proof.
  intros Hinv. unfold uiStep.
  destruct (allowed w i) eqn:Hal; [|assumption].
  destruct i as [c| |v| |k outcome|k outcome|k now|now|now|id now]; cbn [step];
    try (now apply gateInvariant_same with (w := w)).
  - (* handleGenerate *)
    cbn in Hal. pose proof (generateEnabled_idle w Hal) as Hidle.
    destruct (coords (state w)) as [c|] eqn:Hc.
    + rewrite (handleGenerate_fields w Hc).
      destruct Hinv as [_ Hzero]. specialize (Hzero Hidle).
      unfold gateInvariant, cyclesInFlight in *. cbn.
      rewrite filter_app, length_app, Hzero. cbn. split; [lia | discriminate].
    + unfold handleGenerate. now rewrite Hc.
  - (* text settled *)
    unfold textSettled.
    destruct (nth_error (inflight w) k) as [[| | |]|] eqn:Hk; try assumption.
    destruct (storyOfOutcome outcome) as [story|err].
    + unfold set_pending, emit, setState, set_state, set_inflight. cbn.
      now apply gateInvariant_continue with (q := AwaitText).
    + now apply gateInvariant_finish with (w := w) (k := k) (q := AwaitText).
  - (* speech settled *)
    unfold speechSettled.
    destruct (nth_error (inflight w) k) as [[| | |]|] eqn:Hk; try assumption.
    destruct (speechOfOutcome outcome) as [base64Audio|err];
      [|now apply gateInvariant_finish with (w := w) (k := k) (q := AwaitSpeech)].
    destruct (initAudioContext newAudioContext w) as [w1|err] eqn:Ei;
      [|now apply gateInvariant_finish with (w := w) (k := k) (q := AwaitSpeech)].
    destruct (initAudioContext_frame w Ei)
      as [Hs [Hi [Hp [Hsrc [Hbuf [Hst [Hpa [Hn Hl]]]]]]]].
    destruct (audioContextRef w1) as [ctx|].
    + unfold set_pending, emit, set_inflight. cbn.
      rewrite Hs, Hi, Hp, Hsrc, Hbuf, Hst, Hpa, Hn.
      now apply gateInvariant_continue with (q := AwaitSpeech).
    + apply gateInvariant_finish with (w := w) (k := k) (q := AwaitSpeech); auto.
      cbn. now rewrite Hi.
  - (* decode settled *)
    unfold decodeSettled.
    destruct (nth_error (inflight w) k) as [[| |base64Audio|]|] eqn:Hk; try assumption.
    destruct (decodeAndPlay atob decodeAudioData base64Audio) as [buffer|err];
      [|now apply gateInvariant_finish with (w := w) (k := k) (q := AwaitDecode base64Audio)].
    match goal with |- context [playAudio _ _ ?v] => destruct (playAudio newAudioContext now v) as [w3|err] eqn:Ep end.
    + destruct (playAudio_frame _ _ Ep) as [_ Hi].
      apply gateInvariant_finish with (w := w) (k := k) (q := AwaitDecode base64Audio); auto.
      cbn. now rewrite Hi.
    + now apply gateInvariant_finish with (w := w) (k := k) (q := AwaitDecode base64Audio).
  - (* play *)
    destruct (playAudio newAudioContext now w) as [w'|err] eqn:Ep; [|assumption].
    destruct (playAudio_frame _ _ Ep) as [Hs Hi].
    apply gateInvariant_same with (w := w); auto. now rewrite Hs.
  - (* pause *)
    apply gateInvariant_same with (w := w); auto;
      unfold pauseAudio; destruct (audioSourceRef w), (audioContextRef w); reflexivity.
  - (* ended *)
    apply gateInvariant_same with (w := w); auto;
      unfold sourceEnded, onended; destruct (nth_error (nodes w) id); auto;
      cbn; destruct (num_ge _ _); reflexivity.
Qed.

Lemma uiRun_gateInvariant (inputs : list (@Input T)) (w : World T) :
  gateInvariant w ->
  gateInvariant (uiRun newAudioContext atob decodeAudioData w inputs).
Proof.
  revert w; induction inputs as [|i inputs IH]; intros w Hinv; cbn.
  - assumption.
  - apply IH. now apply uiStep_gateInvariant.
Qed.

(** C9 (as amended).  The program keeps no sequence number and drops no
    response: a text response that arrives for a waiting invocation is
    written to [storyText], whatever has been started since.  Through the
    rendered controls a second cycle cannot start while one is running: in
    every run driven by the controls at most one invocation is waiting, and
    while one is, [isGenerating] is set and the generate control is disabled. *)
Theorem ui_gate_keeps_one_cycle (w : World T) (inputs : list (@Input T)) :
  gateInvariant w ->
  (cyclesInFlight (uiRun newAudioContext atob decodeAudioData w inputs) <= 1)%nat /\
  ((0 < cyclesInFlight (uiRun newAudioContext atob decodeAudioData w inputs))%nat ->
     isGenerating (state (uiRun newAudioContext atob decodeAudioData w inputs)) = true /\
     generateEnabled (uiRun newAudioContext atob decodeAudioData w inputs) = false) /\
  (forall (v : World T) (k : nat) (response : GenerateContentResponse),
     nth_error (inflight v) k = Some AwaitText ->
     storyText (state (textSettled k (Ok response) v)) =
       Some (or_else (responseText response) fallbackStory)).
Proof.
  intros Hinv.
  destruct (uiRun_gateInvariant inputs Hinv) as [Hle Hidle].
  set (w' := uiRun newAudioContext atob decodeAudioData w inputs) in *.
  split; [exact Hle|]. split.
  - intros Hpos.
    assert (Hg : isGenerating (state w') = true).
    { destruct (isGenerating (state w')); auto. specialize (Hidle eq_refl). lia. }
    split; [exact Hg|].
    unfold generateEnabled. rewrite Hg. now rewrite orb_true_r.
  - intros v k response Hk. now rewrite (textSettled_waiting k (Ok response) v Hk).
Qed.

End PipelineFacts.

(* ------------------------------------------------------------------ *)
(** ** The paused offset is never negative *)

Lemma Qc_trunc_opp (q : Qc) : Qc_trunc (- q)%Qc = (- Qc_trunc q)%Z.
Proof.
  unfold Qc_trunc, Qcopp, Q2Qc. cbn [this].
  rewrite Qred_opp. rewrite (canon q).
  destruct q as [[n d] Hc]. cbn. apply Z.quot_opp_l. discriminate.
Qed.

Lemma Qc_of_Z_opp (z : Z) : Qc_of_Z (- z) = (- Qc_of_Z z)%Qc.
Proof.
  apply Qc_is_canon. unfold Qc_of_Z, Qcopp, Q2Qc. cbn [this].
  rewrite !Qred_correct. unfold inject_Z, Qopp, Qeq. cbn. lia.
Qed.

Lemma Qc_rem_opp_divisor (p d : Qc) : Qc_rem p (- d) = Qc_rem p d.
Proof.
  destruct (Qc_eq_dec d 0) as [->|Hd].
  - reflexivity.
  - unfold Qc_rem.
    assert (E : (p / - d)%Qc = (- (p / d))%Qc).
    { field. split; [assumption|]. intros Hn. apply Hd.
      rewrite <- (Qcopp_involutive d), Hn. reflexivity. }
    rewrite E.
    rewrite Qc_trunc_opp, Qc_of_Z_opp. ring.
Qed.

Lemma Qc_rem_nonneg (p d : Qc) : (0 <= p)%Qc -> (0 <= Qc_rem p d)%Qc.
Proof.
  intros Hp.
  destruct (Qclt_le_dec 0 d) as [Hpos|Hle].
  - apply (Qc_rem_range Hp Hpos).
  - destruct (Qc_eq_dec d 0) as [->|Hd].
    + unfold Qc_rem. replace (p - 0 * Qc_of_Z (Qc_trunc (p / 0)))%Qc with p by ring.
      assumption.
    + rewrite <- Qc_rem_opp_divisor.
      assert (Hneg : (0 < - d)%Qc).
      { apply Qcle_lt_or_eq in Hle. destruct Hle as [Hlt|Heq]; [|congruence].
        apply Qclt_minus_iff in Hlt. now rewrite Qcplus_0_l in Hlt. }
      apply (Qc_rem_range Hp Hneg).
Qed.

Section TimeFacts.
Variable newAudioContext : Result AudioContext.
Variable atob : string -> option (list byte).
Variable decodeAudioData : list byte -> option (AudioBuffer Qc).

Lemma timeInvariant_same (t : Qc) (w w' : World Qc) :
  pausedAtRef w' = pausedAtRef w -> startTimeRef w' = startTimeRef w ->
  timeInvariant t w -> timeInvariant t w'.
Proof.
  unfold timeInvariant. intros -> ->. auto.
Qed.

Lemma timeInvariant_later (t t' : Qc) (w : World Qc) :
  (t <= t')%Qc -> timeInvariant t w -> timeInvariant t' w.
Proof.
  intros Hle [Hp Hs]. split; [assumption|]. eapply Qcle_trans; eauto.
Qed.

Lemma Qc_sub_nonneg_le (a b : Qc) : (0 <= b)%Qc -> (a - b <= a)%Qc.
Proof.
  unfold Qcle, Qcminus, Qcplus, Qcopp, Q2Qc. cbn [this]. rewrite !Qred_correct.
  intros Hb. change (this (Q2Qc 0)) with 0%Q in Hb. lra.
Qed.

Lemma Qc_sub_le_nonneg (a b : Qc) : (b <= a)%Qc -> (0 <= a - b)%Qc.
Proof.
  unfold Qcle, Qcminus, Qcplus, Qcopp, Q2Qc. cbn [this]. rewrite !Qred_correct.
  intros Hb. lra.
Qed.

Lemma playAudio_timeInvariant (t now : Qc) (w w' : World Qc) :
  (t <= now)%Qc -> timeInvariant t w ->
  playAudio newAudioContext now w = Ok w' -> timeInvariant now w'.
Proof.
  intros Hle Hinv. unfold playAudio.
  destruct (initAudioContext newAudioContext w) as [w1|e] eqn:Ei; cbn; [|discriminate].
  destruct (initAudioContext_frame newAudioContext w Ei)
    as [_ [_ [_ [_ [_ [Hst [Hpa _]]]]]]].
  assert (Hinv1 : timeInvariant t w1) by (now apply timeInvariant_same with (w := w)).
  assert (Hlater : timeInvariant now w1)
    by (apply timeInvariant_later with (t := t); assumption).
  destruct (audioContextRef w1) as [ctx|]; [|intros [= <-]; exact Hlater].
  destruct (audioBufferRef w1) as [buffer|]; [|intros [= <-]; exact Hlater].
  intros [= <-]. destruct Hinv1 as [Hp Hs]. split; cbn [pausedAtRef startTimeRef
    set_isPlaying set_audioSourceRef set_startTimeRef set_nodes].
  - exact Hp.
  - apply Qc_sub_nonneg_le. now apply Qc_rem_nonneg.
Qed.

Lemma catchHandler_time (k : nat) (e : Thrown) (t : Qc) (w : World Qc) :
  timeInvariant t w -> timeInvariant t (catchHandler k e w).
Proof.
  now apply timeInvariant_same.
Qed.

(** One step keeps the paused offset non-negative and the start reference
    no later than the engine clock. *)
Lemma step_timeInvariant (t : Qc) (w : World Qc) (i : @Input Qc) :
  timeInvariant t w ->
  match clockOf i with
  | Some t' => (t <= t')%Qc ->
      timeInvariant t' (step newAudioContext atob decodeAudioData w i)
  | None => timeInvariant t (step newAudioContext atob decodeAudioData w i)
  end.
Proof.
  intros Hinv.
  destruct i as [c| |v| |k outcome|k outcome|k now|now|now|id now]; cbn [clockOf step];
    try (now apply timeInvariant_same with (w := w)).
  - unfold handleGenerate. destruct (coords (state w)); [|assumption].
    destruct Hinv as [Hp Hs]. split; cbn.
    + apply Qcle_refl.
    + destruct (audioSourceRef w); assumption.
  - unfold textSettled.
    destruct (nth_error (inflight w) k) as [[| | |]|]; try assumption.
    destruct (storyOfOutcome outcome); now apply timeInvariant_same with (w := w).
  - unfold speechSettled.
    destruct (nth_error (inflight w) k) as [[| | |]|]; try assumption.
    destruct (speechOfOutcome outcome); [|now apply catchHandler_time].
    destruct (initAudioContext newAudioContext w) as [w1|e] eqn:Ei;
      [|now apply catchHandler_time].
    destruct (initAudioContext_frame newAudioContext w Ei)
      as [_ [_ [_ [_ [_ [Hst [Hpa _]]]]]]].
    destruct (audioContextRef w1); now apply timeInvariant_same with (w := w).
  - intros Hle. unfold decodeSettled.
    destruct (nth_error (inflight w) k) as [[| |base64Audio|]|];
      try (now apply timeInvariant_later with (t := t)).
    destruct (decodeAndPlay atob decodeAudioData base64Audio) as [buffer|e];
      [|apply timeInvariant_later with (t := t); [assumption | now apply catchHandler_time]].
    match goal with |- context [playAudio _ _ ?v] =>
      assert (Hv : timeInvariant t v) by (now apply timeInvariant_same with (w := w));
      destruct (playAudio newAudioContext now v) as [w3|e] eqn:Ep
    end.
    + apply timeInvariant_same with (w := w3); auto.
      eapply playAudio_timeInvariant; eauto.
    + apply timeInvariant_later with (t := t); [assumption | now apply catchHandler_time].
  - intros Hle.
    destruct (playAudio newAudioContext now w) as [w'|e] eqn:Ep.
    + eapply playAudio_timeInvariant; eauto.
    + now apply timeInvariant_later with (t := t).
  - intros Hle. unfold pauseAudio.
    destruct (audioSourceRef w), (audioContextRef w);
      try (now apply timeInvariant_later with (t := t)).
    destruct Hinv as [Hp Hs]. split; cbn.
    + apply Qc_sub_le_nonneg. eapply Qcle_trans; eauto.
    + eapply Qcle_trans; eauto.
  - intros Hle. unfold sourceEnded.
    destruct (nth_error (nodes w) id); [|now apply timeInvariant_later with (t := t)].
    unfold onended. cbn.
    destruct (Qc_ge _ _).
    + destruct Hinv as [Hp Hs]. split; cbn; [apply Qcle_refl | eapply Qcle_trans; eauto].
    + apply timeInvariant_later with (t := t); [assumption|].
      now apply timeInvariant_same with (w := w).
Qed.

(** In every run whose clock readings do not decrease, the paused offset is
    never negative. *)
Lemma pausedAt_never_negative (inputs : list (@Input Qc)) (t : Qc) (w : World Qc) :
  timeInvariant t w ->
  clockMonotone t inputs ->
  (0 <= pausedAtRef (run newAudioContext atob decodeAudioData w inputs))%Qc.
Proof.
  revert t w; induction inputs as [|i inputs IH]; intros t w Hinv Hmono; cbn.
  - apply Hinv.
  - pose proof (step_timeInvariant i Hinv) as Hstep. cbn in Hmono.
    destruct (clockOf i) as [t'|].
    + destruct Hmono as [Hle Hrest]. exact (IH t' _ (Hstep Hle) Hrest).
    + exact (IH t _ Hstep Hmono).
Qed.

End TimeFacts.

(* ------------------------------------------------------------------ *)
(** ** A loaded buffer comes with an audio context *)

Section ContextFacts.
Context {T : Type} `{JsNumber T}.
Variable newAudioContext : Result AudioContext.
Variable atob : string -> option (list byte).
Variable decodeAudioData : list byte -> option (AudioBuffer T).

Lemma contextInvariant_same (w w' : World T) :
  audioBufferRef w' = audioBufferRef w ->
  audioContextRef w' = audioContextRef w ->
  inflight w' = inflight w ->
  contextInvariant w -> contextInvariant w'.
Proof.
  unfold contextInvariant. intros -> -> ->. auto.
Qed.

(** Replacing a pending entry by one that does not await a decode, dropping
    the buffer or not. *)
Lemma contextInvariant_update (w w' : World T) (k : nat) (p : Pending) :
  (forall b, p <> AwaitDecode b) ->
  audioBufferRef w' = audioBufferRef w \/ audioBufferRef w' = None ->
  audioContextRef w' = audioContextRef w ->
  inflight w' = store (inflight w) k p \/ inflight w' = inflight w ++ [p] ->
  contextInvariant w -> contextInvariant w'.
Proof.
  intros Hp Hbuf Hctx Hin [Hb Hd]. split.
  - rewrite Hctx. destruct Hbuf as [-> | ->]; [assumption | discriminate].
  - intros j b Hj. rewrite Hctx. destruct Hin as [Hin | Hin]; rewrite Hin in Hj.
    + rewrite nth_error_store in Hj.
      destruct ((j =? k)%nat && (k <? List.length (inflight w))%nat).
      * injection Hj as Hj. now apply Hp in Hj.
      * now apply (Hd j b).
    + destruct (Nat.lt_ge_cases j (List.length (inflight w))) as [Hlt|Hge].
      * rewrite nth_error_app1 in Hj by assumption. now apply (Hd j b).
      * rewrite nth_error_app2 in Hj by assumption.
        destruct (j - List.length (inflight w))%nat as [|[|n]]; cbn in Hj; try discriminate.
        injection Hj as Hj. now apply Hp in Hj.
Qed.

Ltac side_conditions :=
  cbn; first [assumption | discriminate | reflexivity | now left | now right].

Lemma initAudioContext_keeps_context (w w1 : World T) :
  initAudioContext newAudioContext w = Ok w1 ->
  isSome (audioContextRef w1) = true.
Proof.
  unfold initAudioContext.
  destruct (audioContextRef w) as [c|] eqn:Ec; cbn.
  - rewrite Ec. destruct (ctxState c); intros [= <-]; now rewrite Ec.
  - destruct newAudioContext as [c|e]; cbn; [|discriminate].
    destruct (ctxState c); intros [= <-]; reflexivity.
Qed.

Lemma playAudio_contextInvariant (now : T) (w w' : World T) :
  contextInvariant w -> playAudio newAudioContext now w = Ok w' -> contextInvariant w'.
Proof.
  intros [Hb Hd]. unfold playAudio.
  destruct (initAudioContext newAudioContext w) as [w1|e] eqn:Ei; cbn; [|discriminate].
  pose proof (initAudioContext_keeps_context w Ei) as Hc1.
  destruct (initAudioContext_frame newAudioContext w Ei) as [_ [Hi [_ [_ [Hbuf _]]]]].
  assert (Hinv1 : contextInvariant w1).
  { split; [auto|]. intros; assumption. }
  destruct (audioContextRef w1) as [ctx|] eqn:Ec; [|discriminate].
  destruct (audioBufferRef w1) as [buffer|] eqn:Eb; intros [= <-].
  - split; cbn; intros; rewrite Ec; reflexivity.
  - exact Hinv1.
Qed.

Lemma step_contextInvariant (w : World T) (i : @Input T) :
  contextInvariant w ->
  contextInvariant (step newAudioContext atob decodeAudioData w i).
Proof.
  intros Hinv.
  destruct i as [c| |v| |k outcome|k outcome|k now|now|now|id now]; cbn [step];
    try (now apply contextInvariant_same with (w := w)).
  - destruct (coords (state w)) as [c|] eqn:Hc;
      [|unfold handleGenerate; now rewrite Hc].
    rewrite (handleGenerate_fields w Hc).
    apply contextInvariant_update with (w := w) (k := 0%nat) (p := AwaitText).
    all: side_conditions.
  - unfold textSettled.
    destruct (nth_error (inflight w) k) as [[| | |]|]; try assumption.
    destruct (storyOfOutcome outcome).
    + apply contextInvariant_update with (w := w) (k := k) (p := AwaitSpeech);
        side_conditions.
    + apply contextInvariant_update with (w := w) (k := k) (p := Finished);
        side_conditions.
  - unfold speechSettled.
    destruct (nth_error (inflight w) k) as [[| | |]|]; try assumption.
    destruct (speechOfOutcome outcome) as [base64Audio|e];
      [|apply contextInvariant_update with (w := w) (k := k) (p := Finished);
         side_conditions].
    destruct (initAudioContext newAudioContext w) as [w1|e] eqn:Ei;
      [|apply contextInvariant_update with (w := w) (k := k) (p := Finished);
         side_conditions].
    pose proof (initAudioContext_keeps_context w Ei) as Hc1.
    destruct (audioContextRef w1) as [ctx|] eqn:Ec; [|discriminate].
    split; cbn; rewrite Ec; reflexivity.
  - unfold decodeSettled.
    destruct (nth_error (inflight w) k) as [[| |base64Audio|]|] eqn:Hk; try assumption.
    destruct (decodeAndPlay atob decodeAudioData base64Audio) as [buffer|e];
      [|apply contextInvariant_update with (w := w) (k := k) (p := Finished);
         side_conditions].
    assert (Hctx : isSome (audioContextRef w) = true) by (apply (proj2 Hinv k base64Audio Hk)).
    match goal with |- context [playAudio _ _ ?v] =>
      assert (Hv : contextInvariant v)
        by (split; [intros _; exact Hctx | exact (proj2 Hinv)]);
      destruct (playAudio newAudioContext now v) as [w3|e] eqn:Ep
    end.
    + pose proof (playAudio_contextInvariant _ Hv Ep) as Hw3.
      destruct (playAudio_frame _ _ _ Ep) as [_ Hi].
      destruct Hw3 as [Hb3 Hd3]. split; cbn; [assumption|].
      intros j b Hj. rewrite nth_error_store in Hj.
      destruct ((j =? k)%nat && (k <? List.length (inflight w3))%nat);
        [discriminate | now apply (Hd3 j b)].
    + destruct Hv as [Hbv Hdv]. split; cbn; [intros _; exact Hctx|].
      intros j b Hj. rewrite nth_error_store in Hj.
      destruct ((j =? k)%nat && (k <? List.length (inflight w))%nat);
        [discriminate | now apply (proj2 Hinv j b)].
  - destruct (playAudio newAudioContext now w) as [w'|e] eqn:Ep; [|assumption].
    eapply playAudio_contextInvariant; eauto.
  - apply contextInvariant_same with (w := w); auto;
      unfold pauseAudio;
      destruct (audioSourceRef w) eqn:Es, (audioContextRef w) eqn:Ec; cbn; auto.
  - apply contextInvariant_same with (w := w); auto;
      unfold sourceEnded, onended; destruct (nth_error (nodes w) id); auto;
      cbn; destruct (num_ge _ _); reflexivity.
Qed.

(** From the initial component on, a loaded buffer comes with a context. *)
Lemma loaded_buffer_has_context (inputs : list (@Input T)) (w : World T) :
  contextInvariant w ->
  isSome (audioBufferRef (run newAudioContext atob decodeAudioData w inputs)) = true ->
  isSome (audioContextRef (run newAudioContext atob decodeAudioData w inputs)) = true.
Proof.
  intros Hinv.
  assert (Hrun : contextInvariant (run newAudioContext atob decodeAudioData w inputs)).
  { revert w Hinv; induction inputs as [|i inputs IH]; intros w Hinv; cbn.
    - assumption.
    - apply IH. now apply step_contextInvariant. }
  apply Hrun.
Qed.

End ContextFacts.

(* ------------------------------------------------------------------ *)
(** ** The properties on sample inputs *)


Example silentResponse_sources :
  extractGroundingSources silentResponse =
    [mkGroundingSource (Some "City Hall") (Some "https://example.org/hall");
     mkGroundingSource (Some "Map Location") (Some "https://maps.example.org/1")].
Proof.
  reflexivity.
Qed.

Lemma generate_resets_audio_first_witness :
  let w := @playingWorld float _ in
  coords (state w) = Some DEFAULT_COORDS /\
  isPlaying w = true /\
  log (handleGenerate w) =
    [EvStopAudio; EvDiscardBuffer; EvRequest (ReqText DEFAULT_COORDS MORNING MYSTERIOUS)] /\
  audioBufferRef (handleGenerate w) = None /\
  audioSourceRef (handleGenerate w) = None /\
  isPlaying (handleGenerate w) = false /\
  pausedAtRef (handleGenerate w) = 0%float.
Proof.
  intros w.
  assert (Hc : coords (state w) = Some DEFAULT_COORDS) by reflexivity.
  split; [exact Hc|]. split; [reflexivity|].
  destruct (@generate_resets_audio_first float _ w DEFAULT_COORDS Hc)
    as [Hlog [Hbuf [Hsrc [Hplay [Hpaused _]]]]].
  repeat split; assumption.
Defined.

Lemma failed_cycle_aborts_witness :
  let down := runCycle (Ok sampleContext) sampleAtob (@rejectAll float)
                serviceDown serviceDown 0%float readyWorld in
  let odd := runCycle (Ok sampleContext) sampleAtob (@rejectAll float)
               (Ok firstResponse) (Ok (speechResponse "AQID")) 0%float readyWorld in
  coords (state (@readyWorld float _)) = Some DEFAULT_COORDS /\
  (abortedWith 0
     "Failed to weave the narrative thread. The connection to the neural net was interrupted."
     down /\
   storyText (state down) = None /\
   log down =
     [EvStopAudio; EvDiscardBuffer; EvRequest (ReqText DEFAULT_COORDS MORNING MYSTERIOUS)]) /\
  (abortedWith 0 "byte length of Int16Array should be a multiple of 2" odd /\
   storyText (state odd) = Some "first narrative" /\
   log odd =
     [EvStopAudio; EvDiscardBuffer; EvRequest (ReqText DEFAULT_COORDS MORNING MYSTERIOUS);
      EvRequest (ReqSpeech "first narrative"); EvRequest (ReqDecode "AQID")]).
Proof.
  intros down odd.
  assert (Hc : coords (state (@readyWorld float _)) = Some DEFAULT_COORDS) by reflexivity.
  split; [exact Hc|]. split.
  - destruct (@failed_cycle_aborts float _ (Ok sampleContext) sampleAtob (@rejectAll float)
                readyWorld DEFAULT_COORDS serviceDown serviceDown 0%float Hc)
      as [Hstage1 _].
    destruct (Hstage1 _ eq_refl) as [Hab [Hstory [_ Hlog]]].
    repeat split; assumption.
  - destruct (@failed_cycle_aborts float _ (Ok sampleContext) sampleAtob (@rejectAll float)
                readyWorld DEFAULT_COORDS (Ok firstResponse) (Ok (speechResponse "AQID"))
                0%float Hc)
      as [_ [_ [_ Hstage3]]].
    destruct (Hstage3 _ "AQID" _ eq_refl eq_refl eq_refl eq_refl)
      as [Hab [Hstory [_ Hlog]]].
    repeat split; assumption.
Defined.

Lemma ui_gate_keeps_one_cycle_witness :
  let w := uiRun (Ok sampleContext) sampleAtob (@rejectAll float) readyWorld
             [CallGenerate; CallGenerate; TextSettled 1 (Ok secondResponse);
              TextSettled 0 (Ok firstResponse); CallGenerate] in
  gateInvariant (@readyWorld float _) /\
  (cyclesInFlight w <= 1)%nat /\
  ((0 < cyclesInFlight w)%nat ->
     isGenerating (state w) = true /\ generateEnabled w = false).
Proof.
  intros w.
  assert (Hinv : gateInvariant (@readyWorld float _)).
  { split; [vm_compute; lia | reflexivity]. }
  split; [exact Hinv|].
  destruct (@ui_gate_keeps_one_cycle float _ (Ok sampleContext) sampleAtob (@rejectAll float)
              readyWorld
              [CallGenerate; CallGenerate; TextSettled 1 (Ok secondResponse);
               TextSettled 0 (Ok firstResponse); CallGenerate] Hinv)
    as [Hle [Hgate _]].
  split; assumption.
Defined.

(** C9, as stated, fails: with two invocations of [handleGenerate] waiting,
    the response of the older one arrives after the newer one has set the
    narrative, and replaces it. *)
Lemma late_response_overwrites_newer_cycle :
  cyclesInFlight (@overlappingCycles float _) = 2%nat /\
  storyText (state (@overlappingCycles float _)) = Some "second narrative" /\
  storyText (state (step (Ok sampleContext) sampleAtob (@rejectAll float)
                      overlappingCycles (TextSettled 0 (Ok firstResponse)))) =
    Some "first narrative".
Proof.
  repeat split; vm_compute; reflexivity.
Qed.

(** A whole cycle on the sample host: the narrative is shown, the two samples
    are decoded and playback starts. *)
Example successful_cycle_autoplays :
  let w := runCycle (Ok sampleContext) sampleAtob (@rejectAll float)
             (Ok firstResponse) (Ok (speechResponse "AAD/fw==")) 0%float readyWorld in
  isGenerating (state w) = false /\
  statusMessage (state w) = "Narrative Ready" /\
  error (state w) = None /\
  storyText (state w) = Some "first narrative" /\
  audioBufferRef w = Some (mkAudioBuffer 1 2 24000 [[0; 0.999969482421875]%float]) /\
  isPlaying w = true /\
  activeOutputs w = 1%nat /\
  cyclesInFlight w = 0%nat.
Proof.
  repeat split; vm_compute; reflexivity.
Qed.

(* ================================================================== *)
(** * Further properties of the code *)

(* ------------------------------------------------------------------ *)
(** ** Time of day *)

(** X1.  The first effect maps the hours 5-11 to morning, 12-16 to
    afternoon, 17-20 to evening and every other hour (21-23 and 0-4) to
    night. *)
Theorem time_of_day_buckets (hour : Z) :
  (timeOfDayOfHour hour = MORNING <-> (5 <= hour < 12)%Z) /\
  (timeOfDayOfHour hour = AFTERNOON <-> (12 <= hour < 17)%Z) /\
  (timeOfDayOfHour hour = EVENING <-> (17 <= hour < 21)%Z) /\
  (timeOfDayOfHour hour = NIGHT <-> (hour < 5 \/ 21 <= hour)%Z).
Proof.
  unfold timeOfDayOfHour.
  destruct (Z.leb_spec 5 hour), (Z.ltb_spec hour 12), (Z.leb_spec 12 hour),
    (Z.ltb_spec hour 17), (Z.leb_spec 17 hour), (Z.ltb_spec hour 21);
    cbn; repeat split; intros; try discriminate; try lia; try reflexivity.
Qed.

(* ------------------------------------------------------------------ *)
(** ** The 16-bit view and the fallback decoder *)

Lemma byte_value_range (b : byte) : (0 <= Z.of_N (Byte.to_N b) < 256)%Z.
Proof.
  pose proof (Byte.to_N_bounded b). lia.
Qed.

(** An element of the 16-bit view is a signed 16-bit integer. *)
Lemma int16_of_bytes_range (lo hi : byte) :
  (-32768 <= int16_of_bytes lo hi < 32768)%Z.
Proof.
  pose proof (byte_value_range lo) as Hlo.
  pose proof (byte_value_range hi) as Hhi.
  unfold int16_of_bytes.
  destruct (Z.ltb_spec (Z.of_N (Byte.to_N lo) + 256 * Z.of_N (Byte.to_N hi)) 32768); lia.
Qed.

(** X2.  An element of the 16-bit view is a signed 16-bit integer from which
    both bytes can be read back: the low byte is the sample modulo 256, the
    high byte the next eight bits of its two's complement. *)
Theorem int16_of_bytes_round_trip (lo hi : byte) :
  (-32768 <= int16_of_bytes lo hi < 32768)%Z /\
  Z.of_N (Byte.to_N lo) = (int16_of_bytes lo hi mod 256)%Z /\
  Z.of_N (Byte.to_N hi) = ((int16_of_bytes lo hi mod 65536) / 256)%Z.
Proof.
  split; [apply int16_of_bytes_range|].
  pose proof (byte_value_range lo) as Hlo.
  pose proof (byte_value_range hi) as Hhi.
  unfold int16_of_bytes.
  destruct (Z.ltb_spec (Z.of_N (Byte.to_N lo) + 256 * Z.of_N (Byte.to_N hi)) 32768);
    split; Z.div_mod_to_equations; lia.
Qed.

Lemma int16_elements_shape (n : nat) (bs : list byte) :
  (List.length bs <= n)%nat ->
  List.length (int16_elements bs) = (List.length bs / 2)%nat /\
  Forall (fun v => (-32768 <= v < 32768)%Z) (int16_elements bs).
Proof.
  revert bs; induction n as [|n IH]; intros bs Hn.
  - destruct bs; [|simpl in Hn; lia]. simpl. split; constructor.
  - destruct bs as [|lo [|hi rest]].
    + simpl. split; constructor.
    + simpl. split; constructor.
    + destruct (IH rest) as [Hlen Hall]; [simpl in Hn; lia|].
      cbn [int16_elements List.length]. split.
      * rewrite Hlen.
        change (S (S (List.length rest))) with (2 + List.length rest)%nat.
        replace (2 + List.length rest)%nat with (List.length rest + 1 * 2)%nat by lia.
        rewrite Nat.div_add by lia. lia.
      * constructor; [apply int16_of_bytes_range | exact Hall].
Qed.

Lemma normalized_in_unit_range (v : Z) :
  (-32768 <= v < 32768)%Z -> inUnitRange (@normalized Qc _ v).
Proof.
  apply normalized_Qc_range.
Qed.

(** X3.  On every non-empty payload of even length that the container
    decoder rejects, the decoder succeeds: one channel at 24000 Hz, half as
    many frames as bytes, every frame in [[-1, 1)], and a positive duration. *)
Theorem fallback_decodes_even_payloads
  (decodeAudioData : list byte -> option (AudioBuffer Qc)) (payload : list byte) :
  decodeAudioData payload = None ->
  payload <> [] ->
  Nat.even (List.length payload) = true ->
  exists frames,
    decode_bytes decodeAudioData payload =
      Ok (mkAudioBuffer 1 (Z.of_nat (List.length payload / 2)) 24000 [frames]) /\
    List.length frames = (List.length payload / 2)%nat /\
    Forall inUnitRange frames /\
    (0 < duration (mkAudioBuffer 1 (Z.of_nat (List.length payload / 2)) 24000 [frames]))%Qc.
Proof.
  intros Hrej Hne Hev.
  destruct (int16_elements_shape payload (Nat.le_refl _)) as [Hlen Hall].
  assert (Hpos : (1 <= List.length payload / 2)%nat).
  { destruct payload as [|lo [|hi rest]]; [congruence | discriminate Hev |].
    change (List.length (lo :: hi :: rest)) with (2 + List.length rest)%nat.
    replace (2 + List.length rest)%nat with (List.length rest + 1 * 2)%nat by lia.
    rewrite Nat.div_add by lia. lia. }
  exists (map normalized (int16_elements payload)).
  unfold decode_bytes. rewrite Hrej.
  rewrite pcm_fallback_even; [rewrite Hlen | assumption |].
  - repeat split.
    + now rewrite length_map.
    + apply Forall_map. eapply Forall_impl; [|exact Hall].
      intros v Hv. now apply normalized_in_unit_range.
    + apply duration_positive; cbn [frameLength sampleRate]; [lia | reflexivity].
  - intros Hnil. rewrite Hnil in Hlen. cbn [List.length] in Hlen. lia.
Qed.

Lemma fallback_decodes_even_payloads_witness :
  exists frames,
    @decode_bytes Qc _ (@rejectAll Qc) [x00; x80; xff; x7f] =
      Ok (mkAudioBuffer 1 2 24000 [frames]) /\
    List.length frames = 2%nat /\
    Forall inUnitRange frames /\
    (0 < duration (mkAudioBuffer 1 2 24000 [frames]))%Qc.
Proof.
  apply (@fallback_decodes_even_payloads (@rejectAll Qc) [x00; x80; xff; x7f]).
  - reflexivity.
  - discriminate.
  - reflexivity.
Defined.

(** The three ways the fallback can end. *)
Lemma pcm_fallback_cases (T : Type) `{JsNumber T} (bytes : list byte) :
  (Nat.even (List.length bytes) = false ->
     exists message, @pcm_fallback T _ bytes = Throw (ThrownError "RangeError" message)) /\
  (bytes = [] ->
     exists message,
       @pcm_fallback T _ bytes = Throw (ThrownError "NotSupportedError" message)) /\
  (bytes <> [] -> Nat.even (List.length bytes) = true ->
     exists b, @pcm_fallback T _ bytes = Ok b).
Proof.
  split; [|split].
  - intros Hodd. unfold pcm_fallback, Int16Array_of_buffer. rewrite Hodd.
    eexists. reflexivity.
  - intros ->. eexists. reflexivity.
  - intros Hne Hev. eexists. apply pcm_fallback_even; [assumption|].
    destruct bytes as [|lo [|hi rest]]; [congruence | discriminate Hev | discriminate].
Qed.

(** X4.  [decodeAndPlay] returns a buffer exactly when the string is base64
    and either the container decoder accepts the bytes or they are a
    non-empty even number of bytes; every failure is an
    [InvalidCharacterError], a [RangeError] or a [NotSupportedError]. *)
Theorem decodeAndPlay_succeeds_iff (T : Type) `{JsNumber T}
  (atob : string -> option (list byte))
  (decodeAudioData : list byte -> option (AudioBuffer T)) (base64Data : string) :
  (is_ok (decodeAndPlay atob decodeAudioData base64Data) = true <->
   exists bytes, atob base64Data = Some bytes /\
     (decodeAudioData bytes <> None \/
      (bytes <> [] /\ Nat.even (List.length bytes) = true))) /\
  (forall e, decodeAndPlay atob decodeAudioData base64Data = Throw e ->
     exists name message, e = ThrownError name message /\
       (name = "InvalidCharacterError" \/ name = "RangeError" \/
        name = "NotSupportedError")).
Proof.
  unfold decodeAndPlay, decode_bytes.
  destruct (atob base64Data) as [bytes|] eqn:Ea.
  - destruct (decodeAudioData bytes) as [b|] eqn:Ed.
    + split; [|intros e He; discriminate He].
      split; [|reflexivity].
      intros _. exists bytes. split; [reflexivity|]. left. congruence.
    + destruct (pcm_fallback_cases (T := T) bytes) as [Hodd [Hempty Hgood]].
      destruct (Nat.even (List.length bytes)) eqn:Hev.
      * destruct bytes as [|x rest].
        -- destruct (Hempty eq_refl) as [message Hm]. rewrite Hm. split.
           ++ split; [intros Hok; discriminate Hok|].
              intros [bs [Hbs [Hd | [Hn _]]]]; injection Hbs as <-; congruence.
           ++ intros e He. injection He as <-. eauto 6.
        -- destruct (Hgood ltac:(discriminate) eq_refl) as [b Hb]. rewrite Hb. split.
           ++ split; [|reflexivity]. intros _. exists (x :: rest).
              split; [reflexivity|]. right. split; [discriminate | assumption].
           ++ intros e He. discriminate He.
      * destruct (Hodd eq_refl) as [message Hm]. rewrite Hm. split.
        -- split; [intros Hok; discriminate Hok|].
           intros [bs [Hbs [Hd | [_ He]]]]; injection Hbs as <-; congruence.
        -- intros e He. injection He as <-. eauto 6.
  - split.
    + split; [intros Hok; discriminate Hok|]. intros [bs [Hb _]]. discriminate Hb.
    + intros e He. injection He as <-. eauto 6.
Qed.

(* ------------------------------------------------------------------ *)
(** ** The two service calls *)

Lemma or_else_non_empty (x : option string) (d : string) :
  d <> "" -> or_else x d <> "".
Proof.
  intros Hd. unfold or_else. destruct x as [s|]; [|assumption].
  destruct (String.eqb_spec s ""); assumption.
Qed.






(* ------------------------------------------------------------------ *)
(** ** The audio context and the transport *)

(** X7.  [initAudioContext] creates the context at most once: a context
    that exists is kept as it is, a missing one is the one the constructor
    returns, and after a call that returned a second call changes nothing
    and does not depend on the constructor. *)
Theorem initAudioContext_once (T : Type)
  (newAudioContext : Result AudioContext) (w w1 : World T) :
  initAudioContext newAudioContext w = Ok w1 ->
  (exists ctx,
     audioContextRef w1 = Some ctx /\
     match audioContextRef w with
     | Some c => ctx = c /\ w1 = w
     | None => newAudioContext = Ok ctx
     end) /\
  (forall again : Result AudioContext, initAudioContext again w1 = Ok w1).
Proof.
  unfold initAudioContext.
  destruct (audioContextRef w) as [c|] eqn:Ec; cbn [bind].
  - rewrite Ec. intros He.
    assert (Hw : w1 = w) by (destruct (ctxState c); now injection He as <-).
    subst w1. split; [exists c; auto|].
    intros again. rewrite Ec. cbn [bind]. rewrite Ec.
    now destruct (ctxState c).
  - destruct newAudioContext as [c|e]; cbn [bind]; [|discriminate].
    cbn [audioContextRef set_audioContextRef]. intros He.
    assert (Hw : w1 = set_audioContextRef (Some c) w)
      by (destruct (ctxState c); now injection He as <-).
    subst w1. split; [exists c; auto|].
    intros again. cbn. now destruct (ctxState c).
Qed.

Lemma initAudioContext_once_witness :
  (exists ctx,
     audioContextRef
       (set_audioContextRef (Some (mkAudioContext 24000 CtxSuspended))
          (@initialWorld float _)) = Some ctx /\
     Ok (mkAudioContext 24000 CtxSuspended) = Ok ctx) /\
  (forall again : Result AudioContext,
     initAudioContext again
       (set_audioContextRef (Some (mkAudioContext 24000 CtxSuspended))
          (@initialWorld float _)) =
     Ok (set_audioContextRef (Some (mkAudioContext 24000 CtxSuspended))
           (@initialWorld float _))).
Proof.
  apply (@initAudioContext_once float (Ok (mkAudioContext 24000 CtxSuspended))
           (@initialWorld float _)).
  reflexivity.
Defined.

(** X8.  Without a decoded buffer [playAudio] starts nothing: it creates no
    source and changes neither [isPlaying] nor the time references; at most
    it creates the audio context, and it throws only when that fails. *)
Theorem play_without_buffer_starts_nothing (T : Type) `{JsNumber T}
  (newAudioContext : Result AudioContext) (now : T) (w : World T) :
  audioBufferRef w = None ->
  match playAudio newAudioContext now w with
  | Ok w' =>
      nodes w' = nodes w /\ isPlaying w' = isPlaying w /\
      audioSourceRef w' = audioSourceRef w /\ audioBufferRef w' = None /\
      startTimeRef w' = startTimeRef w /\ pausedAtRef w' = pausedAtRef w /\
      state w' = state w
  | Throw e => audioContextRef w = None /\ newAudioContext = Throw e
  end.
Proof.
  intros Hbuf. unfold playAudio.
  destruct (initAudioContext newAudioContext w) as [w1|e] eqn:Ei; cbn [bind].
  - destruct (initAudioContext_frame newAudioContext w Ei)
      as [Hs [Hi [Hp [Hsrc [Hb [Hst [Hpa [Hn Hl]]]]]]]].
    rewrite Hb, Hbuf. destruct (audioContextRef w1); repeat split; congruence.
  - unfold initAudioContext in Ei.
    destruct (audioContextRef w) as [c|] eqn:Ec; cbn [bind] in Ei.
    + rewrite Ec in Ei. destruct (ctxState c); discriminate Ei.
    + destruct newAudioContext as [c|e']; cbn [bind] in Ei.
      * cbn in Ei. destruct (ctxState c); discriminate Ei.
      * injection Ei as <-. auto.
Qed.

Lemma play_without_buffer_starts_nothing_witness :
  match playAudio (Ok sampleContext) 0%float (@readyWorld float _) with
  | Ok w' =>
      nodes w' = nodes (@readyWorld float _) /\
      isPlaying w' = isPlaying (@readyWorld float _) /\
      audioSourceRef w' = audioSourceRef (@readyWorld float _) /\
      audioBufferRef w' = None /\
      startTimeRef w' = startTimeRef (@readyWorld float _) /\
      pausedAtRef w' = pausedAtRef (@readyWorld float _) /\
      state w' = state (@readyWorld float _)
  | Throw e =>
      audioContextRef (@readyWorld float _) = None /\ Ok sampleContext = Throw e
  end.
Proof.
  apply (@play_without_buffer_starts_nothing float _ (Ok sampleContext) 0%float readyWorld).
  reflexivity.
Defined.

(** X9.  [pauseAudio] is idempotent in every state: a second call changes
    nothing, whatever the clock shows, so the offset stored by the first
    pause is kept. *)
Theorem pause_twice_is_pause_once (T : Type) `{JsNumber T} (now later : T) (w : World T) :
  pauseAudio later (pauseAudio now w) = pauseAudio now w.
Proof.
  unfold pauseAudio.
  destruct (audioSourceRef w) as [source|] eqn:Es.
  - destruct (audioContextRef w) as [ctx|] eqn:Ec.
    + reflexivity.
    + rewrite Es, Ec. reflexivity.
  - rewrite Es. reflexivity.
Qed.

(* ------------------------------------------------------------------ *)
(** ** Starting over *)

Section RestartFacts.
Variable newAudioContext : Result AudioContext.

(** [playAudio] from a paused offset of [0], on a buffer of finite positive
    duration, in binary64. *)
Lemma playAudio_from_zero (now : float) (w : World float) (ctx : AudioContext)
  (buffer : AudioBuffer float) :
  audioContextRef w = Some ctx ->
  audioBufferRef w = Some buffer ->
  pausedAtRef w = 0%float ->
  isFinite (duration buffer) = true ->
  (0 < float_to_Q (duration buffer))%Q ->
  exists w' source,
    playAudio newAudioContext now w = Ok w' /\
    nth_error (nodes w') (List.length (nodes w)) = Some source /\
    nodeOffset source = 0%float /\
    startTimeRef w' = now /\
    isPlaying w' = true.
Proof.
  intros Hctx Hbuf Hp Hfd Hd.
  destruct (playAudio_loaded newAudioContext now w Hctx Hbuf) as [ctx' Hplay].
  assert (Hrem : float_rem (pausedAtRef w) (duration buffer) = 0%float).
  { rewrite Hp. apply float_rem_small; try assumption; [reflexivity|].
    vm_compute. discriminate. }
  eexists. eexists. split; [exact Hplay|].
  cbn [nodes startTimeRef isPlaying]. rewrite nth_error_snoc.
  cbn [nodeOffset num_rem num_sub JsNumber_float]. rewrite Hrem.
  repeat split. apply float_sub_zero.
Qed.

(** X11.  After [stopAudio], and after a source has played to its end (the
    [onended] handler finds at least the duration elapsed), [playAudio]
    starts over, in binary64 and for a buffer of finite positive duration:
    the new source begins at offset 0 and the start reference is the current
    engine time. *)
Theorem play_after_stop_restarts (now ended : float) (w : World float)
  (ctx : AudioContext) (buffer : AudioBuffer float) :
  audioContextRef w = Some ctx ->
  audioBufferRef w = Some buffer ->
  isFinite (duration buffer) = true ->
  (0 < float_to_Q (duration buffer))%Q ->
  (exists w' source,
     playAudio newAudioContext now (stopAudio w) = Ok w' /\
     nth_error (nodes w') (List.length (nodes w)) = Some source /\
     nodeOffset source = 0%float /\
     startTimeRef w' = now /\
     isPlaying w' = true) /\
  (forall id node,
     nth_error (nodes w) id = Some node ->
     PrimFloat.leb (duration (nodeBuffer node)) (ended - startTimeRef w)%float = true ->
     exists w' source,
       playAudio newAudioContext now (sourceEnded id ended w) = Ok w' /\
       nth_error (nodes w') (List.length (nodes w)) = Some source /\
       nodeOffset source = 0%float /\
       startTimeRef w' = now /\
       isPlaying w' = true).
Proof.
  intros Hctx Hbuf Hfd Hd. split.
  - destruct (stopAudio_context w) as [Hc Hb].
    rewrite <- Hc in Hctx. rewrite <- Hb in Hbuf.
    assert (Hlen : List.length (nodes (stopAudio w)) = List.length (nodes w)).
    { unfold stopAudio. cbn. destruct (audioSourceRef w); cbn; auto using stopNode_length. }
    rewrite <- Hlen.
    exact (playAudio_from_zero now (stopAudio w) Hctx Hbuf eq_refl Hfd Hd).
  - intros id node Hnode Hdone.
    assert (Hended : sourceEnded id ended w =
              set_pausedAtRef num_zero
                (set_isPlaying false (set_nodes (stopNode id (nodes w)) w))).
    { unfold sourceEnded, onended. rewrite Hnode. cbn [startTimeRef set_nodes].
      cbn [num_ge num_sub JsNumber_float]. now rewrite Hdone. }
    rewrite Hended.
    rewrite <- (stopNode_length (nodes w) id).
    exact (playAudio_from_zero now
             (set_pausedAtRef num_zero
                (set_isPlaying false (set_nodes (stopNode id (nodes w)) w)))
             Hctx Hbuf eq_refl Hfd Hd).
Qed.

End RestartFacts.

Lemma play_after_stop_restarts_witness :
  let w := @loadedWorld float _ 0.0004%float in
  isFinite (@duration float _ sampleBuffer) = true /\
  (0 < float_to_Q (@duration float _ sampleBuffer))%Q /\
  exists w' source,
    playAudio (Ok sampleContext) 3.3%float (stopAudio w) = Ok w' /\
    nth_error (nodes w') (List.length (nodes w)) = Some source /\
    nodeOffset source = 0%float /\
    startTimeRef w' = 3.3%float /\
    isPlaying w' = true.
Proof.
  intros w.
  assert (Hfd : isFinite (@duration float _ sampleBuffer) = true)
    by (vm_compute; reflexivity).
  assert (Hd : (0 < float_to_Q (@duration float _ sampleBuffer))%Q)
    by (vm_compute; reflexivity).
  split; [exact Hfd|]. split; [exact Hd|].
  exact (proj1 (@play_after_stop_restarts (Ok sampleContext) 3.3%float 3.3%float w
                  sampleContext sampleBuffer eq_refl eq_refl Hfd Hd)).
Defined.

(* ------------------------------------------------------------------ *)
(** ** Invariants of every run *)

Section RunFacts.
Context {T : Type} `{JsNumber T}.
Variable newAudioContext : Result AudioContext.
Variable atob : string -> option (list byte).
Variable decodeAudioData : list byte -> option (AudioBuffer T).

(** What [playAudio] leaves alone, and what it sets when it starts a source. *)
Lemma playAudio_effect (now : T) (w w' : World T) :
  playAudio newAudioContext now w = Ok w' ->
  state w' = state w /\ inflight w' = inflight w /\ log w' = log w /\
  audioBufferRef w' = audioBufferRef w /\
  isSome (audioContextRef w') = true /\
  ((audioBufferRef w = None /\ isPlaying w' = isPlaying w /\
    audioSourceRef w' = audioSourceRef w) \/
   (audioBufferRef w <> None /\ isPlaying w' = true /\
    isSome (audioSourceRef w') = true)).
Proof.
  unfold playAudio.
  destruct (initAudioContext newAudioContext w) as [w1|e] eqn:Ei; cbn [bind]; [|discriminate].
  destruct (initAudioContext_frame newAudioContext w Ei)
    as [Hs [Hi [Hp [Hsrc [Hb [Hst [Hpa [Hn Hl]]]]]]]].
  pose proof (initAudioContext_keeps_context newAudioContext w Ei) as Hc.
  destruct (audioContextRef w1) as [ctx|] eqn:Ec; [|discriminate Hc].
  destruct (audioBufferRef w1) as [buffer|] eqn:Eb; intros He; injection He as <-.
  - cbn. repeat (split; [solve [auto | congruence]|]). right.
    split; [congruence | split; reflexivity].
  - rewrite Ec. repeat (split; [solve [auto | congruence]|]).
    left. repeat split; congruence.
Qed.

Lemma step_playingInvariant (w : World T) (i : @Input T) :
  contextInvariant w -> playingInvariant w ->
  playingInvariant (step newAudioContext atob decodeAudioData w i).
Proof.
  intros Hctx Hinv.
  assert (Hsame : forall v : World T,
            isPlaying v = isPlaying w -> audioSourceRef v = audioSourceRef w ->
            audioContextRef v = audioContextRef w -> playingInvariant v).
  { intros v Hp Hs Hc. unfold playingInvariant. rewrite Hp, Hs, Hc. exact Hinv. }
  assert (Hplay : forall now (v v' : World T),
            playingInvariant v -> playAudio newAudioContext now v = Ok v' ->
            playingInvariant v').
  { intros now v v' Hv Hp.
    destruct (playAudio_effect _ _ Hp) as [_ [_ [_ [_ [Hc [[_ [Hpl Hsrc]] | [_ [_ Hsrc]]]]]]]].
    - intros Hplaying. rewrite Hsrc. split; [|exact Hc]. apply Hv. congruence.
    - intros _. auto. }
  destruct i as [c| |v| |k outcome|k outcome|k now|now|now|id now]; cbn [step];
    try (now apply Hsame).
  - unfold handleGenerate. destruct (coords (state w)); [|assumption].
    intros Hp. discriminate Hp.
  - unfold textSettled.
    destruct (nth_error (inflight w) k) as [[| | |]|]; try assumption.
    destruct (storyOfOutcome outcome); now apply Hsame.
  - unfold speechSettled.
    destruct (nth_error (inflight w) k) as [[| | |]|]; try assumption.
    destruct (speechOfOutcome outcome); [|now apply Hsame].
    destruct (initAudioContext newAudioContext w) as [w1|e] eqn:Ei; [|now apply Hsame].
    destruct (initAudioContext_frame newAudioContext w Ei)
      as [_ [_ [Hp [Hsrc _]]]].
    pose proof (initAudioContext_keeps_context newAudioContext w Ei) as Hc.
    destruct (audioContextRef w1) as [ctx|] eqn:Ec; [|discriminate Hc].
    intros Hplaying. cbn in *. rewrite Ec, Hsrc. split; [|reflexivity].
    apply Hinv. congruence.
  - unfold decodeSettled.
    destruct (nth_error (inflight w) k) as [[| |base64Audio|]|]; try assumption.
    destruct (decodeAndPlay atob decodeAudioData base64Audio) as [buffer|e];
      [|now apply Hsame].
    match goal with |- context [playAudio _ _ ?v] =>
      assert (Hv : playingInvariant v) by (now apply Hsame);
      destruct (playAudio newAudioContext now v) as [w3|e] eqn:Ep
    end.
    + pose proof (Hplay _ _ _ Hv Ep) as H3. exact H3.
    + exact Hv.
  - destruct (playAudio newAudioContext now w) as [w'|e] eqn:Ep; [|assumption].
    exact (Hplay _ _ _ Hinv Ep).
  - unfold pauseAudio.
    destruct (audioSourceRef w) eqn:Es, (audioContextRef w) eqn:Ec; try assumption.
    intros Hp. discriminate Hp.
  - unfold sourceEnded. destruct (nth_error (nodes w) id); [|assumption].
    unfold onended. cbn. destruct (num_ge _ _).
    + intros Hp. discriminate Hp.
    + now apply Hsame.
Qed.

Lemma run_contextInvariant (inputs : list (@Input T)) (w : World T) :
  contextInvariant w ->
  contextInvariant (run newAudioContext atob decodeAudioData w inputs).
Proof.
  revert w; induction inputs as [|i inputs IH]; intros w Hinv; cbn.
  - assumption.
  - apply IH. now apply step_contextInvariant.
Qed.

(** X12.  In every run, while [isPlaying] is set a source is tracked and a
    context exists; so [pauseAudio] called while playing always takes
    effect: it clears [isPlaying], forgets the source and stores
    [currentTime - startTimeRef]. *)
Theorem pause_while_playing_takes_effect (inputs : list (@Input T)) (w : World T) (now : T) :
  contextInvariant w ->
  playingInvariant w ->
  isPlaying (run newAudioContext atob decodeAudioData w inputs) = true ->
  isSome (audioSourceRef (run newAudioContext atob decodeAudioData w inputs)) = true /\
  isPlaying (pauseAudio now (run newAudioContext atob decodeAudioData w inputs)) = false /\
  audioSourceRef (pauseAudio now (run newAudioContext atob decodeAudioData w inputs)) = None /\
  pausedAtRef (pauseAudio now (run newAudioContext atob decodeAudioData w inputs)) =
    num_sub now (startTimeRef (run newAudioContext atob decodeAudioData w inputs)).
Proof.
  intros Hctx Hinv.
  assert (Hrun : playingInvariant (run newAudioContext atob decodeAudioData w inputs)).
  { revert w Hctx Hinv; induction inputs as [|i inputs IH]; intros w Hctx Hinv; cbn.
    - assumption.
    - apply IH; [now apply step_contextInvariant | now apply step_playingInvariant]. }
  intros Hplaying. destruct (Hrun Hplaying) as [Hsrc Hc].
  split; [exact Hsrc|]. unfold pauseAudio.
  destruct (audioSourceRef _) as [source|]; [|discriminate Hsrc].
  destruct (audioContextRef _) as [ctx|]; [|discriminate Hc].
  repeat split.
Qed.

Lemma step_generatingInvariant (w : World T) (i : @Input T) :
  generatingInvariant w ->
  generatingInvariant (step newAudioContext atob decodeAudioData w i).
Proof.
  intros Hinv.
  assert (Hsame : forall v : World T,
            isGenerating (state v) = isGenerating (state w) ->
            audioBufferRef v = audioBufferRef w ->
            (isPlaying v = isPlaying w \/ isPlaying v = false) ->
            generatingInvariant v).
  { intros v Hg Hb Hp. unfold generatingInvariant. rewrite Hg, Hb. intros Hgen.
    destruct (Hinv Hgen) as [Hbuf Hpl]. split; [assumption|].
    destruct Hp as [-> | ->]; auto. }
  assert (Hidle : forall v : World T,
            isGenerating (state v) = false -> generatingInvariant v).
  { intros v Hg Hgen. congruence. }
  destruct i as [c| |v| |k outcome|k outcome|k now|now|now|id now]; cbn [step];
    try (now apply Hsame; auto).
  - unfold handleGenerate. destruct (coords (state w)); [|assumption].
    intros _. cbn. auto.
  - unfold textSettled.
    destruct (nth_error (inflight w) k) as [[| | |]|]; try assumption.
    destruct (storyOfOutcome outcome); [now apply Hsame; auto | now apply Hidle].
  - unfold speechSettled.
    destruct (nth_error (inflight w) k) as [[| | |]|]; try assumption.
    destruct (speechOfOutcome outcome); [|now apply Hidle].
    destruct (initAudioContext newAudioContext w) as [w1|e] eqn:Ei; [|now apply Hidle].
    destruct (initAudioContext_frame newAudioContext w Ei)
      as [Hs [_ [Hp [_ [Hb _]]]]].
    destruct (audioContextRef w1); [|apply Hidle; reflexivity].
    apply Hsame; cbn; [now rewrite Hs | assumption | now left].
  - unfold decodeSettled.
    destruct (nth_error (inflight w) k) as [[| |base64Audio|]|]; try assumption.
    destruct (decodeAndPlay atob decodeAudioData base64Audio) as [buffer|e];
      [|now apply Hidle].
    match goal with |- context [playAudio _ _ ?v] =>
      destruct (playAudio newAudioContext now v) as [w3|e] eqn:Ep
    end.
    + destruct (playAudio_effect _ _ Ep) as [Hs _].
      apply Hidle. cbn. now rewrite Hs.
    + now apply Hidle.
  - destruct (playAudio newAudioContext now w) as [w'|e] eqn:Ep; [|assumption].
    destruct (playAudio_effect _ _ Ep) as [Hs [_ [_ [Hb [_ Hcase]]]]].
    intros Hgen. rewrite Hs in Hgen. destruct (Hinv Hgen) as [Hbuf Hpl].
    split; [congruence|].
    destruct Hcase as [[_ [Hp _]] | [Hne _]]; [congruence | contradiction].
  - apply Hsame; unfold pauseAudio;
      destruct (audioSourceRef w) eqn:Es, (audioContextRef w) eqn:Ec; cbn; auto.
  - unfold sourceEnded. destruct (nth_error (nodes w) id); [|assumption].
    unfold onended. cbn. destruct (num_ge _ _); apply Hsame; cbn; auto.
Qed.

(** X13.  In every run, while [isGenerating] is set there is no decoded
    buffer and [isPlaying] is off: the audio of the previous narrative
    cannot be resumed during a generation, and the transport controls are
    not rendered. *)
Theorem nothing_plays_while_generating (inputs : list (@Input T)) (w : World T) :
  generatingInvariant w ->
  isGenerating (state (run newAudioContext atob decodeAudioData w inputs)) = true ->
  audioBufferRef (run newAudioContext atob decodeAudioData w inputs) = None /\
  isPlaying (run newAudioContext atob decodeAudioData w inputs) = false /\
  transportVisible (run newAudioContext atob decodeAudioData w inputs) = false.
Proof.
  intros Hinv.
  assert (Hrun : generatingInvariant (run newAudioContext atob decodeAudioData w inputs)).
  { revert w Hinv; induction inputs as [|i inputs IH]; intros w Hinv; cbn.
    - assumption.
    - apply IH. now apply step_generatingInvariant. }
  intros Hgen. destruct (Hrun Hgen) as [Hbuf Hpl].
  repeat split; try assumption.
  unfold transportVisible. rewrite Hgen. now rewrite orb_true_r.
Qed.

End RunFacts.

Lemma pause_while_playing_takes_effect_witness :
  let w := run (Ok sampleContext) sampleAtob (@rejectAll float) (loadedWorld 0%float)
             [CallPlay 1%float] in
  contextInvariant (@loadedWorld float _ 0%float) /\
  playingInvariant (@loadedWorld float _ 0%float) /\
  isPlaying w = true /\
  isPlaying (pauseAudio 1.5%float w) = false /\
  pausedAtRef (pauseAudio 1.5%float w) = num_sub 1.5%float (startTimeRef w).
Proof.
  intros w.
  assert (Hctx : contextInvariant (@loadedWorld float _ 0%float)).
  { split; [reflexivity|]. intros [|k] base64Audio Hk; discriminate Hk. }
  assert (Hinv : playingInvariant (@loadedWorld float _ 0%float)).
  { intros Hp. discriminate Hp. }
  assert (Hplaying : isPlaying w = true) by reflexivity.
  split; [exact Hctx|]. split; [exact Hinv|]. split; [exact Hplaying|].
  destruct (@pause_while_playing_takes_effect float _ (Ok sampleContext) sampleAtob
              (@rejectAll float) [CallPlay 1%float] (loadedWorld 0%float) 1.5%float
              Hctx Hinv Hplaying) as [_ [Hp [_ Hoff]]].
  split; assumption.
Defined.

Lemma nothing_plays_while_generating_witness :
  let w := run (Ok sampleContext) sampleAtob (@rejectAll float) (loadedWorld 0%float)
             [CallPlay 1%float; CallGenerate; CallPlay 2%float] in
  generatingInvariant (@loadedWorld float _ 0%float) /\
  isGenerating (state w) = true /\
  audioBufferRef w = None /\
  isPlaying w = false /\
  transportVisible w = false.
Proof.
  intros w.
  assert (Hinv : generatingInvariant (@loadedWorld float _ 0%float)).
  { intros Hg. discriminate Hg. }
  assert (Hgen : isGenerating (state w) = true) by reflexivity.
  split; [exact Hinv|]. split; [exact Hgen|].
  exact (@nothing_plays_while_generating float _ (Ok sampleContext) sampleAtob
           (@rejectAll float)
           [CallPlay 1%float; CallGenerate; CallPlay 2%float] (loadedWorld 0%float)
           Hinv Hgen).
Defined.

Section TraceFacts.
Context {T : Type} `{JsNumber T}.
Variable newAudioContext : Result AudioContext.
Variable atob : string -> option (list byte).
Variable decodeAudioData : list byte -> option (AudioBuffer T).

Lemma storyOfOutcome_text_non_empty (outcome : Result GenerateContentResponse)
  (story : StoryResponse) :
  storyOfOutcome outcome = Ok story -> text story <> "".
Proof.
  destruct outcome as [response|e]; cbn; [|discriminate].
  intros He. injection He as <-. cbn. apply or_else_non_empty. discriminate.
Qed.

Lemma speechOfOutcome_non_empty (outcome : Result GenerateContentResponse)
  (base64Audio : string) :
  speechOfOutcome outcome = Ok base64Audio -> base64Audio <> "".
Proof.
  unfold speechOfOutcome.
  destruct outcome as [response|e]; cbn [bind]; [|discriminate].
  destruct (firstCandidate response) as [c|]; [|discriminate].
  destruct (inlineData c) as [data|]; [|discriminate].
  destruct (String.eqb_spec data "") as [Hempty|Hfull]; [discriminate|].
  intros He. now injection He as <-.
Qed.

Lemma requestsWellFormed_app (l added : list (Event T)) :
  requestsWellFormed l -> requestsWellFormed added -> requestsWellFormed (l ++ added).
Proof.
  intros [Hs Hd] [Hs' Hd']. split; intros x Hin; apply in_app_or in Hin;
    destruct Hin; auto.
Qed.

(** What one step appends to the trace. *)
Lemma step_log (w : World T) (i : @Input T) :
  exists added,
    log (step newAudioContext atob decodeAudioData w i) = log w ++ added /\
    requestsWellFormed added.
Proof.
  assert (Hnil : forall v : World T, log v = log w ->
            exists added, log v = log w ++ added /\ requestsWellFormed added).
  { intros v Hv. exists []. rewrite app_nil_r. split; [assumption|].
    split; intros x []. }
  destruct i as [c| |v| |k outcome|k outcome|k now|now|now|id now]; cbn [step];
    try (now apply Hnil).
  - destruct (coords (state w)) as [c|] eqn:Hc;
      [|apply Hnil; unfold handleGenerate; now rewrite Hc].
    rewrite (handleGenerate_fields w Hc). cbn [log]. eexists. split; [reflexivity|].
    split; intros x Hin; cbn in Hin;
      repeat (destruct Hin as [Hin|Hin]; [discriminate Hin|]); destruct Hin.
  - unfold textSettled.
    destruct (nth_error (inflight w) k) as [[| | |]|] eqn:Hk; try (now apply Hnil).
    destruct (storyOfOutcome outcome) as [story|e] eqn:Hs; [|now apply Hnil].
    cbn. eexists. split; [reflexivity|].
    split; intros x Hin; cbn in Hin; destruct Hin as [Hin|[]]; [|discriminate Hin].
    injection Hin as <-. exact (storyOfOutcome_text_non_empty _ Hs).
  - unfold speechSettled.
    destruct (nth_error (inflight w) k) as [[| | |]|] eqn:Hk; try (now apply Hnil).
    destruct (speechOfOutcome outcome) as [base64Audio|e] eqn:Hs; [|now apply Hnil].
    destruct (initAudioContext newAudioContext w) as [w1|e] eqn:Ei; [|now apply Hnil].
    destruct (initAudioContext_frame newAudioContext w Ei)
      as [_ [_ [_ [_ [_ [_ [_ [_ Hl]]]]]]]].
    destruct (audioContextRef w1); [|apply Hnil; cbn; assumption].
    cbn. rewrite Hl. eexists. split; [reflexivity|].
    split; intros x Hin; cbn in Hin; destruct Hin as [Hin|[]]; [discriminate Hin|].
    injection Hin as <-. exact (speechOfOutcome_non_empty _ Hs).
  - unfold decodeSettled.
    destruct (nth_error (inflight w) k) as [[| |base64Audio|]|]; try (now apply Hnil).
    destruct (decodeAndPlay atob decodeAudioData base64Audio) as [buffer|e];
      [|now apply Hnil].
    match goal with |- context [playAudio _ _ ?v] =>
      destruct (playAudio newAudioContext now v) as [w3|e] eqn:Ep
    end; [|now apply Hnil].
    destruct (playAudio_effect _ _ _ Ep) as [_ [_ [Hl _]]].
    apply Hnil. cbn. exact Hl.
  - destruct (playAudio newAudioContext now w) as [w'|e] eqn:Ep; [|now apply Hnil].
    destruct (playAudio_effect _ _ _ Ep) as [_ [_ [Hl _]]]. now apply Hnil.
  - apply Hnil. unfold pauseAudio.
    destruct (audioSourceRef w), (audioContextRef w); reflexivity.
  - apply Hnil. unfold sourceEnded. destruct (nth_error (nodes w) id); [|reflexivity].
    unfold onended. cbn. destruct (num_ge _ _); reflexivity.
Qed.

(** X14.  In every run, no speech request is issued with an empty narrative
    and no decode with an empty payload: the fallback sentence of
    [generateStoryText] and the emptiness check of [generateSpeech] see to it. *)
Theorem requests_never_empty (inputs : list (@Input T)) (w : World T) :
  requestsWellFormed (log w) ->
  requestsWellFormed (log (run newAudioContext atob decodeAudioData w inputs)).
Proof.
  revert w; induction inputs as [|i inputs IH]; intros w Hinv; cbn.
  - assumption.
  - apply IH. destruct (step_log w i) as [added [-> Hadded]].
    now apply requestsWellFormed_app.
Qed.

Lemma step_without_position (w : World T) (i : @Input T) :
  isPositionFound i = false ->
  coords (state w) = None -> cyclesInFlight w = 0%nat ->
  coords (state (step newAudioContext atob decodeAudioData w i)) = None /\
  cyclesInFlight (step newAudioContext atob decodeAudioData w i) = 0%nat /\
  log (step newAudioContext atob decodeAudioData w i) = log w /\
  isGenerating (state (step newAudioContext atob decodeAudioData w i)) =
    isGenerating (state w).
Proof.
  intros Hi Hc Hidle.
  assert (Hnone : forall k p, nth_error (inflight w) k = Some p -> waiting p = false).
  { intros k p Hk. destruct (waiting p) eqn:Hp; [|reflexivity].
    unfold cyclesInFlight in Hidle.
    assert (Hin : In p (filter waiting (inflight w)))
      by (apply filter_In; split; [eapply nth_error_In; eauto | assumption]).
    destruct (filter waiting (inflight w)); [destruct Hin | discriminate Hidle]. }
  assert (Hsame : forall v : World T,
            coords (state v) = coords (state w) ->
            isGenerating (state v) = isGenerating (state w) ->
            inflight v = inflight w -> log v = log w ->
            coords (state v) = None /\ cyclesInFlight v = 0%nat /\
            log v = log w /\ isGenerating (state v) = isGenerating (state w)).
  { intros v Hcv Hg Hin Hl. unfold cyclesInFlight in *. rewrite Hin.
    repeat split; congruence. }
  destruct i as [c| |v| |k outcome|k outcome|k now|now|now|id now];
    try discriminate Hi; cbn [step].
  - now apply Hsame.
  - now apply Hsame.
  - unfold handleGenerate. rewrite Hc. now apply Hsame.
  - unfold textSettled.
    destruct (nth_error (inflight w) k) as [[| | |]|] eqn:Hk;
      try (now apply Hsame); specialize (Hnone _ _ Hk); discriminate Hnone.
  - unfold speechSettled.
    destruct (nth_error (inflight w) k) as [[| | |]|] eqn:Hk;
      try (now apply Hsame); specialize (Hnone _ _ Hk); discriminate Hnone.
  - unfold decodeSettled.
    destruct (nth_error (inflight w) k) as [[| |b|]|] eqn:Hk;
      try (now apply Hsame); specialize (Hnone _ _ Hk); discriminate Hnone.
  - destruct (playAudio newAudioContext now w) as [w'|e] eqn:Ep; [|now apply Hsame].
    destruct (playAudio_effect _ _ _ Ep) as [Hs [Hin [Hl _]]].
    apply Hsame; congruence.
  - apply Hsame; unfold pauseAudio;
      destruct (audioSourceRef w), (audioContextRef w); reflexivity.
  - apply Hsame; unfold sourceEnded; destruct (nth_error (nodes w) id);
      try reflexivity; unfold onended; cbn; destruct (num_ge _ _); reflexivity.
Qed.

(** X15.  Until [getCurrentPosition] reports a position, nothing is
    requested: from a component without coordinates and with no cycle
    running, a run without that callback never issues a request and never
    sets [isGenerating], whatever is clicked. *)
Theorem no_request_without_position (inputs : list (@Input T)) (w : World T) :
  coords (state w) = None ->
  cyclesInFlight w = 0%nat ->
  forallb (fun i => negb (isPositionFound i)) inputs = true ->
  log (run newAudioContext atob decodeAudioData w inputs) = log w /\
  coords (state (run newAudioContext atob decodeAudioData w inputs)) = None /\
  isGenerating (state (run newAudioContext atob decodeAudioData w inputs)) =
    isGenerating (state w) /\
  cyclesInFlight (run newAudioContext atob decodeAudioData w inputs) = 0%nat.
Proof.
  revert w; induction inputs as [|i inputs IH]; intros w Hc Hidle Hall; cbn.
  - auto.
  - cbn in Hall. apply andb_true_iff in Hall. destruct Hall as [Hi Hall].
    apply negb_true_iff in Hi.
    destruct (step_without_position w i Hi Hc Hidle) as [Hc' [Hidle' [Hlog Hgen]]].
    destruct (IH _ Hc' Hidle' Hall) as [H1 [H2 [H3 H4]]].
    unfold run in *. repeat split; try assumption; congruence.
Qed.

End TraceFacts.

Lemma requests_never_empty_witness :
  requestsWellFormed (log (@readyWorld float _)) /\
  requestsWellFormed
    (log (runCycle (Ok sampleContext) sampleAtob (@rejectAll float)
            (Ok silentResponse) (Ok (speechResponse "AAD/fw==")) 0%float readyWorld)).
Proof.
  assert (Hinv : requestsWellFormed (log (@readyWorld float _))).
  { split; intros x []. }
  split; [exact Hinv|].
  exact (@requests_never_empty float _ (Ok sampleContext) sampleAtob (@rejectAll float)
           [CallGenerate; TextSettled 0 (Ok silentResponse);
            SpeechSettled 0 (Ok (speechResponse "AAD/fw==")); DecodeSettled 0 0%float]
           readyWorld Hinv).
Defined.

Lemma no_request_without_position_witness :
  let inputs := [PositionDenied; CallGenerate; CallPlay 0%float; CallGenerate] in
  coords (state (@initialWorld float _)) = None /\
  cyclesInFlight (@initialWorld float _) = 0%nat /\
  forallb (fun i => negb (isPositionFound i)) inputs = true /\
  log (run (Ok sampleContext) sampleAtob (@rejectAll float) initialWorld inputs) = [] /\
  isGenerating
    (state (run (Ok sampleContext) sampleAtob (@rejectAll float) initialWorld inputs)) =
    false.
Proof.
  intros inputs.
  destruct (@no_request_without_position float _ (Ok sampleContext) sampleAtob
              (@rejectAll float) inputs initialWorld eq_refl eq_refl eq_refl)
    as [Hlog [_ [Hgen _]]].
  repeat split; assumption.
Defined.

(* ------------------------------------------------------------------ *)
(** ** The in-flight flag and the whole cycle *)

Section CycleFacts.
Context {T : Type} `{JsNumber T}.
Variable newAudioContext : Result AudioContext.
Variable atob : string -> option (list byte).
Variable decodeAudioData : list byte -> option (AudioBuffer T).

Lemma busyInvariant_same (w w' : World T) :
  inflight w' = inflight w ->
  isGenerating (state w') = isGenerating (state w) ->
  busyInvariant w -> busyInvariant w'.
Proof.
  unfold busyInvariant, cyclesInFlight. intros -> ->. auto.
Qed.

(** A waiting invocation implies that the flag is set. *)
Lemma busyInvariant_waiting (w : World T) (k : nat) (q : Pending) :
  nth_error (inflight w) k = Some q -> waiting q = true ->
  busyInvariant w ->
  isGenerating (state w) = true /\ cyclesInFlight w = 1%nat.
Proof.
  intros Hk Hq Hinv. unfold busyInvariant, cyclesInFlight in *.
  assert (Hin : In q (filter waiting (inflight w)))
    by (apply filter_In; split; [eapply nth_error_In; eauto | assumption]).
  destruct (isGenerating (state w)); [auto|].
  destruct (filter waiting (inflight w)); [destruct Hin | discriminate Hinv].
Qed.

Lemma busyInvariant_continue (w v : World T) (k : nat) (p q : Pending) :
  nth_error (inflight w) k = Some q ->
  waiting q = true -> waiting p = true ->
  inflight v = store (inflight w) k p ->
  isGenerating (state v) = isGenerating (state w) ->
  busyInvariant w -> busyInvariant v.
Proof.
  intros Hk Hq Hp Hv Hg Hinv. unfold busyInvariant, cyclesInFlight in *.
  rewrite Hv, Hg, <- Hinv.
  pose proof (count_store (inflight w) k p Hk) as Hc. rewrite Hq, Hp in Hc. lia.
Qed.

Lemma busyInvariant_finish (w v : World T) (k : nat) (q : Pending) :
  nth_error (inflight w) k = Some q ->
  waiting q = true ->
  inflight v = store (inflight w) k Finished ->
  isGenerating (state v) = false ->
  busyInvariant w -> busyInvariant v.
Proof.
  intros Hk Hq Hv Hg Hinv.
  destruct (busyInvariant_waiting k Hk Hq Hinv) as [_ Hone].
  unfold busyInvariant, cyclesInFlight in *. rewrite Hv, Hg.
  pose proof (count_store (inflight w) k Finished Hk) as Hc. rewrite Hq in Hc.
  cbn [waiting] in Hc. lia.
Qed.

Lemma uiStep_busyInvariant (w : World T) (i : @Input T) :
  busyInvariant w ->
  busyInvariant (uiStep newAudioContext atob decodeAudioData w i).
Proof.
  intros Hinv. unfold uiStep.
  destruct (allowed w i) eqn:Hal; [|assumption].
  destruct i as [c| |v| |k outcome|k outcome|k now|now|now|id now]; cbn [step];
    try (now apply busyInvariant_same with (w := w)).
  - cbn in Hal. pose proof (generateEnabled_idle w Hal) as Hidle.
    destruct (coords (state w)) as [c|] eqn:Hc.
    + rewrite (handleGenerate_fields w Hc).
      unfold busyInvariant, cyclesInFlight in *. cbn.
      rewrite Hidle in Hinv. rewrite filter_app, length_app, Hinv. reflexivity.
    + unfold handleGenerate. now rewrite Hc.
  - unfold textSettled.
    destruct (nth_error (inflight w) k) as [[| | |]|] eqn:Hk; try assumption.
    destruct (storyOfOutcome outcome) as [story|err].
    + now apply busyInvariant_continue with (w := w) (k := k) (p := AwaitSpeech) (q := AwaitText).
    + now apply busyInvariant_finish with (w := w) (k := k) (q := AwaitText).
  - unfold speechSettled.
    destruct (nth_error (inflight w) k) as [[| | |]|] eqn:Hk; try assumption.
    destruct (speechOfOutcome outcome) as [base64Audio|err];
      [|now apply busyInvariant_finish with (w := w) (k := k) (q := AwaitSpeech)].
    destruct (initAudioContext newAudioContext w) as [w1|err] eqn:Ei;
      [|now apply busyInvariant_finish with (w := w) (k := k) (q := AwaitSpeech)].
    destruct (initAudioContext_frame newAudioContext w Ei) as [Hs [Hi _]].
    destruct (audioContextRef w1) as [ctx|].
    + apply busyInvariant_continue
        with (w := w) (k := k) (p := AwaitDecode base64Audio) (q := AwaitSpeech); auto.
      * cbn. now rewrite Hi.
      * cbn. now rewrite Hs.
    + apply busyInvariant_finish with (w := w) (k := k) (q := AwaitSpeech); auto.
      cbn. now rewrite Hi.
  - unfold decodeSettled.
    destruct (nth_error (inflight w) k) as [[| |base64Audio|]|] eqn:Hk; try assumption.
    destruct (decodeAndPlay atob decodeAudioData base64Audio) as [buffer|err];
      [|now apply busyInvariant_finish
              with (w := w) (k := k) (q := AwaitDecode base64Audio)].
    match goal with |- context [playAudio _ _ ?v] =>
      destruct (playAudio newAudioContext now v) as [w3|err] eqn:Ep
    end.
    + destruct (playAudio_frame _ _ _ Ep) as [Hs Hi].
      apply busyInvariant_finish
        with (w := w) (k := k) (q := AwaitDecode base64Audio); auto.
      * cbn. now rewrite Hi.
      * cbn. now rewrite Hs.
    + now apply busyInvariant_finish
        with (w := w) (k := k) (q := AwaitDecode base64Audio).
  - destruct (playAudio newAudioContext now w) as [w'|err] eqn:Ep; [|assumption].
    destruct (playAudio_frame _ _ _ Ep) as [Hs Hi].
    apply busyInvariant_same with (w := w); auto. now rewrite Hs.
  - apply busyInvariant_same with (w := w); auto;
      unfold pauseAudio; destruct (audioSourceRef w), (audioContextRef w); reflexivity.
  - apply busyInvariant_same with (w := w); auto;
      unfold sourceEnded, onended; destruct (nth_error (nodes w) id); auto;
      cbn; destruct (num_ge _ _); reflexivity.
Qed.

(** X16.  Through the rendered controls [isGenerating] is set exactly while
    one invocation of [handleGenerate] is waiting: every way out of the
    cycle clears it.  So once the started cycle has returned, the generate
    control is enabled again whenever the position is known. *)
Theorem flag_follows_the_cycle (inputs : list (@Input T)) (w : World T) :
  busyInvariant w ->
  busyInvariant (uiRun newAudioContext atob decodeAudioData w inputs) /\
  (cyclesInFlight (uiRun newAudioContext atob decodeAudioData w inputs) = 0%nat ->
   isSome (coords (state (uiRun newAudioContext atob decodeAudioData w inputs))) = true ->
   generateEnabled (uiRun newAudioContext atob decodeAudioData w inputs) = true).
Proof.
  intros Hinv.
  assert (Hrun : busyInvariant (uiRun newAudioContext atob decodeAudioData w inputs)).
  { revert w Hinv; induction inputs as [|i inputs IH]; intros w Hinv; cbn.
    - assumption.
    - apply IH. now apply uiStep_busyInvariant. }
  split; [exact Hrun|]. intros Hzero Hc.
  unfold busyInvariant in Hrun. rewrite Hzero in Hrun.
  unfold generateEnabled. rewrite Hc.
  destruct (isGenerating (state _)); [discriminate Hrun|].
  destruct (isSome (audioBufferRef _)); reflexivity.
Qed.

(** X17.  A cycle whose three stages succeed ends with the narrative and
    its sources in the state, the status "Narrative Ready", [isGenerating]
    cleared, the decoded buffer loaded and playing from offset [0 % duration]
    on a new source, the three requests in the trace in order, and the
    invocation returned. *)
Theorem successful_cycle_plays (w : World T) (c : Coordinates T)
  (textOutcome speechOutcome : Result GenerateContentResponse) (now : T)
  (story : StoryResponse) (base64Audio : string) (buffer : AudioBuffer T) :
  coords (state w) = Some c ->
  storyOfOutcome textOutcome = Ok story ->
  speechOfOutcome speechOutcome = Ok base64Audio ->
  is_ok (initAudioContext newAudioContext w) = true ->
  decodeAndPlay atob decodeAudioData base64Audio = Ok buffer ->
  let k := List.length (inflight w) in
  let w' := runCycle newAudioContext atob decodeAudioData textOutcome speechOutcome now w in
  let offset := num_rem num_zero (duration buffer) in
  isGenerating (state w') = false /\
  error (state w') = None /\
  statusMessage (state w') = "Narrative Ready" /\
  storyText (state w') = Some (text story) /\
  stateGroundingSources (state w') = groundingSources story /\
  audioBufferRef w' = Some buffer /\
  isPlaying w' = true /\
  audioSourceRef w' = Some (List.length (nodes w)) /\
  nth_error (nodes w') (List.length (nodes w)) = Some (mkSourceNode buffer offset true) /\
  startTimeRef w' = num_sub now offset /\
  nth_error (inflight w') k = Some Finished /\
  log w' = log w ++ [EvStopAudio; EvDiscardBuffer;
                     EvRequest (ReqText c (timeOfDay (state w)) (selectedVibe (state w)));
                     EvRequest (ReqSpeech (text story));
                     EvRequest (ReqDecode base64Audio)].
Proof.
  intros Hc Hstory Hspeech Hinit Hdec k w' offset.
  assert (Hw' : w' = decodeSettled newAudioContext atob decodeAudioData k now
                  (speechSettled newAudioContext k speechOutcome
                     (textSettled k textOutcome (handleGenerate w)))) by reflexivity.
  clearbody w'. subst k offset.
  rewrite (handleGenerate_fields w Hc) in Hw'.
  unfold textSettled in Hw'. cbn in Hw'. rewrite nth_error_snoc in Hw'.
  rewrite Hstory in Hw'.
  unfold set_pending, emit, setState in Hw'. cbn in Hw'. rewrite store_snoc in Hw'.
  unfold speechSettled in Hw'. cbn in Hw'. rewrite nth_error_snoc in Hw'.
  rewrite Hspeech in Hw'.
  match type of Hw' with context [initAudioContext _ ?v] =>
    pose proof (@initAudioContext_transfer T newAudioContext w v eq_refl) as Htr
  end.
  destruct (initAudioContext newAudioContext w) as [w1|e1]; [|discriminate Hinit].
  destruct Htr as [ctx [_ Htr]]. rewrite Htr in Hw'.
  unfold set_pending, emit in Hw'. cbn in Hw'. rewrite store_snoc in Hw'.
  unfold decodeSettled in Hw'. cbn in Hw'. rewrite nth_error_snoc in Hw'.
  rewrite Hdec in Hw'.
  match type of Hw' with context [playAudio _ _ ?v] =>
    destruct (@playAudio_loaded T _ newAudioContext now v ctx buffer eq_refl eq_refl)
      as [ctx' Hplay]
  end.
  rewrite Hplay in Hw'. unfold set_pending in Hw'. cbn in Hw'.
  rewrite store_snoc in Hw'. rewrite Hw'. cbn.
  assert (Hlen : List.length (match audioSourceRef w with
                              | Some source => stopNode source (nodes w)
                              | None => nodes w
                              end) = List.length (nodes w)).
  { destruct (audioSourceRef w); auto using stopNode_length. }
  rewrite nth_error_snoc, <- !app_assoc.
  repeat split; try (now rewrite Hlen).
  rewrite <- Hlen. apply nth_error_snoc.
Qed.

(** A step changes [audioUrl] and [timeOfDay] never, [selectedVibe] only
    through the vibe selector, and never forgets the position. *)
Lemma step_settings (w : World T) (i : @Input T) :
  audioUrl (state (step newAudioContext atob decodeAudioData w i)) = audioUrl (state w) /\
  timeOfDay (state (step newAudioContext atob decodeAudioData w i)) = timeOfDay (state w) /\
  (isSelectVibe i = false ->
   selectedVibe (state (step newAudioContext atob decodeAudioData w i)) =
     selectedVibe (state w)) /\
  (isSome (coords (state w)) = true ->
   isSome (coords (state (step newAudioContext atob decodeAudioData w i))) = true).
Proof.
  assert (Hsame : forall v : World T,
            audioUrl (state v) = audioUrl (state w) ->
            timeOfDay (state v) = timeOfDay (state w) ->
            selectedVibe (state v) = selectedVibe (state w) ->
            coords (state v) = coords (state w) ->
            audioUrl (state v) = audioUrl (state w) /\
            timeOfDay (state v) = timeOfDay (state w) /\
            (isSelectVibe i = false ->
             selectedVibe (state v) = selectedVibe (state w)) /\
            (isSome (coords (state w)) = true -> isSome (coords (state v)) = true)).
  { intros v Ha Ht Hv Hc. rewrite Hc. auto. }
  destruct i as [c| |v| |k outcome|k outcome|k now|now|now|id now]; cbn [step];
    try (now apply Hsame).
  - cbn. auto.
  - cbn. repeat split; auto. discriminate.
  - destruct (coords (state w)) as [c|] eqn:Hc.
    + rewrite (handleGenerate_fields w Hc). now apply Hsame.
    + unfold handleGenerate. rewrite Hc. now apply Hsame.
  - unfold textSettled.
    destruct (nth_error (inflight w) k) as [[| | |]|]; try (now apply Hsame).
    destruct (storyOfOutcome outcome); now apply Hsame.
  - unfold speechSettled.
    destruct (nth_error (inflight w) k) as [[| | |]|]; try (now apply Hsame).
    destruct (speechOfOutcome outcome); [|now apply Hsame].
    destruct (initAudioContext newAudioContext w) as [w1|e] eqn:Ei; [|now apply Hsame].
    destruct (initAudioContext_frame newAudioContext w Ei) as [Hs _].
    destruct (audioContextRef w1); apply Hsame; cbn; now rewrite Hs.
  - unfold decodeSettled.
    destruct (nth_error (inflight w) k) as [[| |base64Audio|]|]; try (now apply Hsame).
    destruct (decodeAndPlay atob decodeAudioData base64Audio) as [buffer|e];
      [|now apply Hsame].
    match goal with |- context [playAudio _ _ ?v] =>
      destruct (playAudio newAudioContext now v) as [w3|e] eqn:Ep
    end; [|now apply Hsame].
    destruct (playAudio_frame _ _ _ Ep) as [Hs _].
    apply Hsame; cbn; now rewrite Hs.
  - destruct (playAudio newAudioContext now w) as [w'|e] eqn:Ep; [|now apply Hsame].
    destruct (playAudio_frame _ _ _ Ep) as [Hs _]. apply Hsame; now rewrite Hs.
  - apply Hsame; unfold pauseAudio;
      destruct (audioSourceRef w), (audioContextRef w); reflexivity.
  - apply Hsame; unfold sourceEnded; destruct (nth_error (nodes w) id);
      try reflexivity; unfold onended; cbn; destruct (num_ge _ _); reflexivity.
Qed.

(** X18.  No handler writes [audioUrl] or [timeOfDay]; the vibe changes only
    through the selector; and a position once found is never forgotten,
    whatever fails afterwards. *)
Theorem run_keeps_settings (inputs : list (@Input T)) (w : World T) :
  audioUrl (state (run newAudioContext atob decodeAudioData w inputs)) = audioUrl (state w) /\
  timeOfDay (state (run newAudioContext atob decodeAudioData w inputs)) =
    timeOfDay (state w) /\
  (forallb (fun i => negb (isSelectVibe i)) inputs = true ->
   selectedVibe (state (run newAudioContext atob decodeAudioData w inputs)) =
     selectedVibe (state w)) /\
  (isSome (coords (state w)) = true ->
   isSome (coords (state (run newAudioContext atob decodeAudioData w inputs))) = true).
Proof.
  revert w; induction inputs as [|i inputs IH]; intros w.
  - cbn. auto.
  - destruct (step_settings w i) as [Ha [Ht [Hv Hc]]].
    destruct (IH (step newAudioContext atob decodeAudioData w i)) as [Ha' [Ht' [Hv' Hc']]].
    unfold run in *. cbn [fold_left forallb].
    repeat split.
    + congruence.
    + congruence.
    + intros Hall. apply andb_true_iff in Hall. destruct Hall as [Hi Hall].
      rewrite (Hv' Hall). apply Hv. now destruct (isSelectVibe i).
    + auto.
Qed.

End CycleFacts.

Lemma flag_follows_the_cycle_witness :
  let w := uiRun (Ok sampleContext) sampleAtob (@rejectAll float) readyWorld
             [CallGenerate; CallGenerate; TextSettled 0 serviceDown] in
  busyInvariant (@readyWorld float _) /\
  cyclesInFlight w = 0%nat /\
  isSome (coords (state w)) = true /\
  busyInvariant w /\
  generateEnabled w = true.
Proof.
  intros w.
  assert (Hinv : busyInvariant (@readyWorld float _)) by reflexivity.
  destruct (@flag_follows_the_cycle float _ (Ok sampleContext) sampleAtob (@rejectAll float)
              [CallGenerate; CallGenerate; TextSettled 0 serviceDown] readyWorld Hinv)
    as [Hbusy Hen].
  split; [exact Hinv|]. split; [reflexivity|]. split; [reflexivity|].
  split; [exact Hbusy | exact (Hen eq_refl eq_refl)].
Defined.

Lemma successful_cycle_plays_witness :
  let w := runCycle (Ok sampleContext) sampleAtob (@rejectAll float)
             (Ok firstResponse) (Ok (speechResponse "AAD/fw==")) 0%float readyWorld in
  coords (state (@readyWorld float _)) = Some DEFAULT_COORDS /\
  decodeAndPlay sampleAtob (@rejectAll float) "AAD/fw==" =
    Ok (mkAudioBuffer 1 2 24000 [[0; 0.999969482421875]%float]) /\
  isGenerating (state w) = false /\
  statusMessage (state w) = "Narrative Ready" /\
  storyText (state w) = Some "first narrative" /\
  audioBufferRef w = Some (mkAudioBuffer 1 2 24000 [[0; 0.999969482421875]%float]) /\
  isPlaying w = true.
Proof.
  intros w.
  assert (Hc : coords (state (@readyWorld float _)) = Some DEFAULT_COORDS) by reflexivity.
  assert (Hdec : decodeAndPlay sampleAtob (@rejectAll float) "AAD/fw==" =
                 Ok (mkAudioBuffer 1 2 24000 [[0; 0.999969482421875]%float]))
    by (vm_compute; reflexivity).
  destruct (@successful_cycle_plays float _ (Ok sampleContext) sampleAtob (@rejectAll float)
              readyWorld DEFAULT_COORDS (Ok firstResponse) (Ok (speechResponse "AAD/fw=="))
              0%float _ _ _ Hc eq_refl eq_refl eq_refl Hdec)
    as [Hg [_ [Hs [Ht [_ [Hb [Hp _]]]]]]].
  repeat split; assumption.
Defined.

Lemma run_keeps_settings_witness :
  let inputs := [CallGenerate; TextSettled 0 serviceDown; PositionDenied] in
  isSome (coords (state (@readyWorld float _))) = true /\
  forallb (fun i : @Input float => negb (isSelectVibe i)) inputs = true /\
  isSome (coords (state (run (Ok sampleContext) sampleAtob (@rejectAll float)
                           readyWorld inputs))) = true /\
  selectedVibe (state (run (Ok sampleContext) sampleAtob (@rejectAll float)
                         readyWorld inputs)) = MYSTERIOUS.
Proof.
  intros inputs.
  destruct (@run_keeps_settings float _ (Ok sampleContext) sampleAtob (@rejectAll float)
              inputs readyWorld) as [_ [_ [Hv Hc]]].
  split; [reflexivity|]. split; [reflexivity|].
  split; [exact (Hc eq_refl) | exact (Hv eq_refl)].
Defined.
